(** * UART echo server with ON/OFF command processing

    A shallow embedding of [main/uart-echo-freertos.c]: the receive/echo
    task [uart_event_task], the command task [command_processor_task] and
    the start-up routine [app_main], together with the properties of the
    two-stage pipeline that they implement.

    Memory is explicit: a C buffer is a [list byte] of its allocated size,
    and every access goes through [load]/[store], which report an access
    outside the buffer as [Fault].  The vendor services (UART driver, GPIO
    driver, FreeRTOS queue, libc, logger) are modelled by what they do to a
    [world] record and by the [effect] they leave in its trace. *)

From Stdlib Require Import ZArith Lia Strings.Byte.
From stdpp Require Import base list gmap strings.

Local Open Scope Z_scope.

(** ** Results of running C code *)

Inductive outcome (A : Type) : Type :=
| Ok (a : A)      (* the code ran to the end *)
| Fault           (* access outside a buffer, or use of an invalid handle *)
| Aborted         (* ESP_ERROR_CHECK saw an error code and called abort() *)
| OutOfFuel.      (* a loop did not finish within the iteration budget *)
Arguments Ok {A} a.
Arguments Fault {A}.
Arguments Aborted {A}.
Arguments OutOfFuel {A}.

Definition obind {A B} (m : outcome A) (k : A -> outcome B) : outcome B :=
  match m with
  | Ok a => k a
  | Fault => Fault
  | Aborted => Aborted
  | OutOfFuel => OutOfFuel
  end.

Declare Scope outcome_scope.
Delimit Scope outcome_scope with out.
Notation "'let*' x := m 'in' k" := (obind m (fun x => k))
  (at level 10, x name, m at level 100, k at level 200) : outcome_scope.
Local Open Scope outcome_scope.

(** ** Bytes and buffers *)

Definition NUL : byte := x00.   (* '\0' *)
Definition LF : byte := x0a.    (* '\n' *)
Definition CR : byte := x0d.    (* '\r' *)

Definition is_nul (c : byte) : bool :=
  match c with x00 => true | _ => false end.

(** The loop condition [*end == '\n' || *end == '\r']. *)
Definition is_eol (c : byte) : bool :=
  match c with x0a | x0d => true | _ => false end.

Definition load (buf : list byte) (i : Z) : outcome byte :=
  if decide (0 <= i) then
    match buf !! Z.to_nat i with
    | Some c => Ok c
    | None => Fault
    end
  else Fault.

Definition store (buf : list byte) (i : Z) (c : byte) : outcome (list byte) :=
  if decide (0 <= i < Z.of_nat (length buf)) then Ok (<[Z.to_nat i := c]> buf)
  else Fault.

(** ** The parts of libc that the program calls *)

(** The text of a C string held in [buf]: the bytes before the first NUL. *)
Fixpoint cstr (buf : list byte) : list byte :=
  match buf with
  | [] => []
  | c :: rest => if is_nul c then [] else c :: cstr rest
  end.

(** [strlen]: scans for the first NUL; running off the buffer is a fault. *)
Fixpoint strlen (buf : list byte) : outcome Z :=
  match buf with
  | [] => Fault
  | c :: rest => if is_nul c then Ok 0 else let* n := strlen rest in Ok (1 + n)
  end.

(** [strcmp]: the difference of the first pair of differing bytes (as
    unsigned char), 0 when both strings end together. *)
Fixpoint strcmp (a b : list byte) : outcome Z :=
  match a, b with
  | ca :: a', cb :: b' =>
      if Byte.eqb ca cb then
        if is_nul ca then Ok 0 else strcmp a' b'
      else Ok (Z.of_N (Byte.to_N ca) - Z.of_N (Byte.to_N cb))
  | _, _ => Fault
  end.

(** A string literal as it lies in memory: its bytes and the terminator. *)
Definition literal (s : string) : list byte :=
  String.list_byte_of_string s ++ [NUL].

(** ** Trimming the line ending (command_processor_task, lines 155-156)

    [char *end = cmd + strlen(cmd) - 1;
     while (end >= cmd && ( *end == '\n' || *end == '\r')) *end-- = '\0';]

    [end] is kept as an index relative to [cmd], so [end >= cmd] reads
    [0 <= end_]; for the empty string the index starts at -1. *)
Fixpoint trim_loop (fuel : nat) (cmd : list byte) (end_ : Z)
  : outcome (list byte) :=
  match fuel with
  | O => OutOfFuel
  | S fuel' =>
      if decide (0 <= end_) then
        let* c := load cmd end_ in
        if is_eol c then
          let* cmd' := store cmd end_ NUL in
          trim_loop fuel' cmd' (end_ - 1)
        else Ok cmd
      else Ok cmd
  end.

(** [end] decreases by one per iteration and the loop stops below 0, so
    [strlen cmd + 1] iterations are a sufficient budget (see
    [trim_loop_run], [trim_loop_more_fuel]). *)
Definition trim (cmd : list byte) : outcome (list byte) :=
  let* n := strlen cmd in
  trim_loop (S (Z.to_nat n)) cmd (n - 1).

(** What the prose asks of the trim, on texts: drop the longest suffix made
    of LF and CR bytes. *)
Fixpoint strip_eol (s : list byte) : list byte :=
  match s with
  | [] => []
  | c :: rest =>
      match strip_eol rest with
      | [] => if is_eol c then [] else [c]
      | r => c :: r
      end
  end.

(** ** The world the tasks act on *)

Definition BUF_SIZE : Z := 1024.

Inductive log_level := LOG_ERROR | LOG_WARN | LOG_INFO.

(** Modelled from the spec: the driver header that declares
    [uart_event_type_t] is not part of the sources; the variants are the
    ones the data model lists (Data, Overflow, BufferFull, FrameError,
    ParityError, Other(code)), under the names the switch uses. *)
Inductive uart_event_type :=
| UART_DATA
| UART_FIFO_OVF
| UART_BUFFER_FULL
| UART_FRAME_ERR
| UART_PARITY_ERR
| UART_OTHER (code : Z).

Record uart_event_t := { ev_type : uart_event_type; ev_size : Z }.

(** The argument of a log format: none, a C string ([%s]) or an event
    type ([%d]). *)
Inductive log_arg :=
| NoArg
| StrArg (text : list byte)
| EventArg (ty : uart_event_type).

Inductive task_id := UartEventTask | CommandProcessorTask.

(** Calls into the vendor services, in the order they are made. *)
Inductive effect :=
| ELog (lvl : log_level) (fmt : string) (arg : log_arg)
| EUartRead (length ret : Z)
| EUartWrite (bytes : list byte)
| EUartFlushInput
| EEventQueueReset
| EQueueSend (item : positive) (passed : bool)
| EQueueReceive (item : positive)
| EGpioSetLevel (level : Z)
| ETaskCreate (t : task_id)
| ETaskDelete (t : task_id).

(** A FreeRTOS queue of pointers. *)
Record queue := { q_capacity : nat; q_items : list positive }.

Record world := {
  gpio_level : Z;                      (* level driven on GPIO_CONTROL *)
  heap : gmap positive (list byte);    (* blocks obtained from strdup *)
  command_queue : option queue;        (* None: the handle is NULL *)
  tasks : list task_id;                (* tasks created so far *)
  trace : list effect
}.

Definition set_gpio (g : Z) (w : world) : world :=
  {| gpio_level := g; heap := heap w; command_queue := command_queue w;
     tasks := tasks w; trace := trace w |}.
Definition set_heap (h : gmap positive (list byte)) (w : world) : world :=
  {| gpio_level := gpio_level w; heap := h; command_queue := command_queue w;
     tasks := tasks w; trace := trace w |}.
Definition set_queue (q : option queue) (w : world) : world :=
  {| gpio_level := gpio_level w; heap := heap w; command_queue := q;
     tasks := tasks w; trace := trace w |}.
Definition set_tasks (ts : list task_id) (w : world) : world :=
  {| gpio_level := gpio_level w; heap := heap w;
     command_queue := command_queue w; tasks := ts; trace := trace w |}.
Definition add_trace (e : effect) (w : world) : world :=
  {| gpio_level := gpio_level w; heap := heap w;
     command_queue := command_queue w; tasks := tasks w;
     trace := trace w ++ [e] |}.

(** ** Code that acts on the world *)

Definition M (A : Type) : Type := world -> outcome (A * world).

Definition ret {A} (a : A) : M A := fun w => Ok (a, w).
Definition bind {A B} (m : M A) (k : A -> M B) : M B :=
  fun w => match m w with
           | Ok (a, w') => k a w'
           | Fault => Fault
           | Aborted => Aborted
           | OutOfFuel => OutOfFuel
           end.
Definition lift {A} (o : outcome A) : M A :=
  fun w => match o with
           | Ok a => Ok (a, w)
           | Fault => Fault
           | Aborted => Aborted
           | OutOfFuel => OutOfFuel
           end.
Definition emit (e : effect) : M unit := fun w => Ok (tt, add_trace e w).

Declare Scope world_scope.
Delimit Scope world_scope with world.
Notation "x <- m ;; k" := (bind m (fun x => k))
  (at level 100, m at next level, right associativity) : world_scope.
Notation "m ;; k" := (bind m (fun _ => k))
  (at level 100, right associativity) : world_scope.
Local Open Scope world_scope.

Definition ESP_LOG (lvl : log_level) (fmt : string) (arg : log_arg) : M unit :=
  emit (ELog lvl fmt arg).

(** [ESP_ERROR_CHECK(call)]: continues when the call returned ESP_OK. *)
Definition ESP_ERROR_CHECK (esp_ok : bool) : M unit :=
  fun w => if esp_ok then Ok (tt, w) else Aborted.

Definition gpio_set_level (level : Z) : M unit :=
  fun w => Ok (tt, add_trace (EGpioSetLevel level) (set_gpio level w)).

(** ** Vendor services *)

(** What the UART driver can deliver within the read timeout. *)
Inductive rx_source :=
| RxError                        (* the driver reports an error: -1 *)
| RxAvail (bytes : list byte).   (* bytes waiting in the RX ring buffer *)

(** [uart_read_bytes(UART_PORT, buf, len_req, ticks)]: copies at most
    [len_req] of the waiting bytes to the start of [buf] and returns their
    number; the copy must fit the buffer. *)
Definition uart_read_bytes (rx : rx_source) (buf : list byte) (len_req : Z)
  : M (Z * list byte) :=
  match rx with
  | RxError => emit (EUartRead len_req (-1)) ;; ret (-1, buf)
  | RxAvail bytes =>
      let got := take (Z.to_nat len_req) bytes in
      if decide (length got <= length buf)%nat then
        emit (EUartRead len_req (Z.of_nat (length got))) ;;
        ret (Z.of_nat (length got), got ++ drop (length got) buf)
      else lift Fault
  end.

(** [uart_write_bytes(UART_PORT, src, size)]: sends the first [size] bytes. *)
Definition uart_write_bytes (src : list byte) (size : Z) : M unit :=
  if decide (0 <= size <= Z.of_nat (length src)) then
    emit (EUartWrite (take (Z.to_nat size) src))
  else lift Fault.

(** [strdup]: a fresh block holding the text and its terminator, or NULL
    ([None]) when the allocation fails. *)
Definition strdup (alloc_ok : bool) (s : list byte) : M (option positive) :=
  _ <- lift (strlen s) ;;
  if alloc_ok then
    fun w => let p := fresh (dom (heap w)) in
             Ok (Some p, set_heap (<[p := cstr s ++ [NUL]]> (heap w)) w)
  else ret None.

Definition free (p : positive) : M unit :=
  fun w => match heap w !! p with
           | Some _ => Ok (tt, set_heap (delete p (heap w)) w)
           | None => Fault
           end.

Definition deref (p : positive) : M (list byte) :=
  fun w => match heap w !! p with
           | Some buf => Ok (buf, w)
           | None => Fault
           end.

Definition assign (p : positive) (buf : list byte) : M unit :=
  fun w => match heap w !! p with
           | Some _ => Ok (tt, set_heap (<[p := buf]> (heap w)) w)
           | None => Fault
           end.

(** [xQueueCreate(n, sizeof(char * ))]: NULL when the kernel has no memory. *)
Definition xQueueCreate (create_ok : bool) (n : nat) : M bool :=
  fun w => if create_ok
           then Ok (true, set_queue (Some {| q_capacity := n; q_items := [] |}) w)
           else Ok (false, set_queue None w).

(** [xQueueSend(command_queue, &item, ticks) == pdPASS].  The wait is
    collapsed to the moment the call takes effect: the item goes in when
    there is room, and the call times out when the queue is full. *)
Definition xQueueSend (item : positive) : M bool :=
  fun w => match command_queue w with
           | None => Fault
           | Some q =>
               if decide (length (q_items q) < q_capacity q)%nat then
                 Ok (true,
                     add_trace (EQueueSend item true)
                       (set_queue (Some {| q_capacity := q_capacity q;
                                           q_items := q_items q ++ [item] |}) w))
               else Ok (false, add_trace (EQueueSend item false) w)
           end.

(** [xQueueReceive(command_queue, &cmd, portMAX_DELAY) == pdPASS]: the
    oldest item; [None] stands for the task still waiting on an empty
    queue. *)
Definition xQueueReceive : M (option positive) :=
  fun w => match command_queue w with
           | None => Fault
           | Some q =>
               match q_items q with
               | [] => Ok (None, w)
               | item :: rest =>
                   Ok (Some item,
                       add_trace (EQueueReceive item)
                         (set_queue (Some {| q_capacity := q_capacity q;
                                             q_items := rest |}) w))
               end
           end.

Definition xTaskCreate (create_ok : bool) (t : task_id) : M unit :=
  fun w => if create_ok
           then Ok (tt, add_trace (ETaskCreate t) (set_tasks (tasks w ++ [t]) w))
           else Ok (tt, w).

(** ** uart_event_task *)

(** The clamp of lines 85-87, after the [rx_size == 0] test. *)
Definition clamp_rx_size (rx_size : Z) : Z :=
  if decide (rx_size >= BUF_SIZE) then BUF_SIZE - 1 else rx_size.

(** Lines 98-106: the copy of the text goes to the command task; a copy
    that does not get into the queue is released. *)
Definition forward_command (alloc_ok : bool) (data : list byte) : M unit :=
  cmd_copy <- strdup alloc_ok data ;;
  match cmd_copy with
  | Some p =>
      passed <- xQueueSend p ;;
      if passed : bool then ret tt
      else
        free p ;;
        ESP_LOG LOG_ERROR "Failed to send command to queue" NoArg
  | None =>
      ESP_LOG LOG_ERROR "Failed to duplicate command string" NoArg
  end.

(** One turn of the [while (1)] loop, for the [event] taken from the
    driver's event queue; [data] is the task's receive buffer. *)
Definition uart_event_iteration (event : uart_event_t) (rx : rx_source)
    (alloc_ok : bool) (data : list byte) : M (list byte) :=
  match ev_type event with
  | UART_DATA =>
      let rx_size := ev_size event in
      if decide (rx_size = 0) then ret data
      else
        let rx_size := clamp_rx_size rx_size in
        r <- uart_read_bytes rx data rx_size ;;
        let len := fst r in
        let data := snd r in
        if decide (len > 0) then
          data <- lift (store data len NUL) ;;
          ESP_LOG LOG_INFO "Received: %s" (StrArg (cstr data)) ;;
          (* Echo back *)
          uart_write_bytes data len ;;
          (* Send command copy to processor *)
          forward_command alloc_ok data ;;
          ret data
        else ret data
  | UART_FIFO_OVF =>
      ESP_LOG LOG_WARN "UART FIFO overflow" NoArg ;;
      emit EUartFlushInput ;;
      emit EEventQueueReset ;;
      ret data
  | UART_BUFFER_FULL =>
      ESP_LOG LOG_WARN "UART ring buffer full" NoArg ;;
      emit EUartFlushInput ;;
      emit EEventQueueReset ;;
      ret data
  | UART_FRAME_ERR | UART_PARITY_ERR =>
      ESP_LOG LOG_WARN "UART error event: %d" (EventArg (ev_type event)) ;;
      ret data
  | UART_OTHER _ =>
      ESP_LOG LOG_INFO "Unhandled UART event: %d" (EventArg (ev_type event)) ;;
      ret data
  end.

Inductive uart_task_state :=
| UartNotStarted
| UartLooping (data : list byte)
| UartDeleted.

(** The prologue of the task: [malloc(BUF_SIZE)] and its NULL check. *)
Definition uart_event_task_start (malloc_result : option (list byte))
  : M uart_task_state :=
  match malloc_result with
  | Some data => ret (UartLooping data)
  | None =>
      ESP_LOG LOG_ERROR "Failed to allocate memory for UART buffer" NoArg ;;
      emit (ETaskDelete UartEventTask) ;;
      ret UartDeleted
  end.

(** ** command_processor_task *)

(** The body run for one entry [cmd] taken from the queue. *)
Definition process_command (cmd : positive) : M unit :=
  buf <- deref cmd ;;
  (* Trim trailing newline/carriage return *)
  buf <- lift (trim buf) ;;
  assign cmd buf ;;
  ESP_LOG LOG_INFO "Processing command: %s" (StrArg (cstr buf)) ;;
  on <- lift (strcmp buf (literal "ON")) ;;
  (if decide (on = 0) then
     gpio_set_level 1 ;;
     ESP_LOG LOG_INFO "GPIO turned ON" NoArg
   else
     off <- lift (strcmp buf (literal "OFF")) ;;
     if decide (off = 0) then
       gpio_set_level 0 ;;
       ESP_LOG LOG_INFO "GPIO turned OFF" NoArg
     else
       ESP_LOG LOG_INFO "Unknown command: %s" (StrArg (cstr buf))) ;;
  free cmd.

(** One turn of the [while (1)] loop. *)
Definition command_processor_iteration : M unit :=
  received <- xQueueReceive ;;
  match received with
  | Some cmd => process_command cmd
  | None => ret tt
  end.

(** ** app_main *)

(** The results of the calls whose failure start-up checks. *)
Record boot_env := {
  gpio_config_ok : bool;
  uart_param_config_ok : bool;
  uart_set_pin_ok : bool;
  uart_driver_install_ok : bool;
  queue_create_ok : bool;
  uart_task_create_ok : bool;
  command_task_create_ok : bool
}.

Definition app_main (env : boot_env) : M unit :=
  ESP_LOG LOG_INFO "Starting UART Echo Example" NoArg ;;
  (* GPIO setup *)
  ESP_ERROR_CHECK (gpio_config_ok env) ;;
  gpio_set_level 0 ;;
  (* UART parameters, pins, driver *)
  ESP_ERROR_CHECK (uart_param_config_ok env) ;;
  ESP_ERROR_CHECK (uart_set_pin_ok env) ;;
  ESP_ERROR_CHECK (uart_driver_install_ok env) ;;
  (* Create command queue *)
  created <- xQueueCreate (queue_create_ok env) 5 ;;
  if created : bool then
    (* Start tasks *)
    xTaskCreate (uart_task_create_ok env) UartEventTask ;;
    xTaskCreate (command_task_create_ok env) CommandProcessorTask ;;
    ESP_LOG LOG_INFO "UART Echo server started" NoArg
  else
    ESP_LOG LOG_ERROR "Failed to create command queue" NoArg.

(** The world at reset: nothing allocated, no queue, no task; the pin is at
    whatever level [level0] the hardware left it. *)
Definition power_on (level0 : Z) : world :=
  {| gpio_level := level0; heap := ∅; command_queue := None;
     tasks := []; trace := [] |}.

(** ** The running system *)

Record system := {
  sys_world : world;
  uart_task : uart_task_state    (* where uart_event_task stands *)
}.

(** One scheduling step, labelled with the task that runs.  A task runs
    only once [app_main] created it; the inputs of the environment (the
    event, the driver's bytes, the allocator's answers) are arbitrary. *)
Inductive step : task_id -> system -> system -> Prop :=
| step_uart_start s malloc_result st w' :
    UartEventTask ∈ tasks (sys_world s) ->
    uart_task s = UartNotStarted ->
    (forall data, malloc_result = Some data ->
                  Z.of_nat (length data) = BUF_SIZE) ->
    uart_event_task_start malloc_result (sys_world s) = Ok (st, w') ->
    step UartEventTask s {| sys_world := w'; uart_task := st |}
| step_uart_event s data event rx alloc_ok data' w' :
    UartEventTask ∈ tasks (sys_world s) ->
    uart_task s = UartLooping data ->
    uart_event_iteration event rx alloc_ok data (sys_world s) = Ok (data', w') ->
    step UartEventTask s {| sys_world := w'; uart_task := UartLooping data' |}
| step_command s w' :
    CommandProcessorTask ∈ tasks (sys_world s) ->
    command_processor_iteration (sys_world s) = Ok (tt, w') ->
    step CommandProcessorTask s {| sys_world := w'; uart_task := uart_task s |}.

Definition any_step (s s' : system) : Prop := exists t, step t s s'.

(** [s] is the system as [app_main] leaves it when it returns. *)
Definition booted (env : boot_env) (level0 : Z) (s : system) : Prop :=
  exists w, app_main env (power_on level0) = Ok (tt, w) /\
            s = {| sys_world := w; uart_task := UartNotStarted |}.

Definition reachable (s : system) : Prop :=
  exists env level0 s0, booted env level0 s0 /\ rtc any_step s0 s.

(** ** Observations on traces *)

(** The bytes put on the serial line by a run of effects. *)
Fixpoint uart_tx (tr : list effect) : list byte :=
  match tr with
  | [] => []
  | EUartWrite bytes :: tr' => bytes ++ uart_tx tr'
  | _ :: tr' => uart_tx tr'
  end.

Definition is_queue_receive (e : effect) : bool :=
  match e with EQueueReceive _ => true | _ => false end.

Definition is_gpio_set (e : effect) : bool :=
  match e with EGpioSetLevel _ => true | _ => false end.

Definition is_uart_write (e : effect) : bool :=
  match e with EUartWrite _ => true | _ => false end.

(** A text without NUL bytes, as a C string needs it. *)
Definition nul_free (text : list byte) : Prop :=
  Forall (fun c => is_nul c = false) text.

(** [kept] is a text that does not end in LF or CR. *)
Definition no_eol_end (kept : list byte) : Prop :=
  forall front c, kept = front ++ [c] -> is_eol c = false.

#[global] Instance byte_eq_decision : EqDecision byte := byte_eq_dec.

(** ** What the prose asks of the command stage *)

Definition ON_text : list byte := String.list_byte_of_string "ON".
Definition OFF_text : list byte := String.list_byte_of_string "OFF".

(** The pin level after a command whose trimmed text is [kept]. *)
Definition command_level (kept : list byte) (level : Z) : Z :=
  if decide (kept = ON_text) then 1
  else if decide (kept = OFF_text) then 0
  else level.

(** The calls a command with trimmed text [kept] makes. *)
Definition command_effects (kept : list byte) : list effect :=
  ELog LOG_INFO "Processing command: %s" (StrArg kept) ::
  (if decide (kept = ON_text) then
     [EGpioSetLevel 1; ELog LOG_INFO "GPIO turned ON" NoArg]
   else if decide (kept = OFF_text) then
     [EGpioSetLevel 0; ELog LOG_INFO "GPIO turned OFF" NoArg]
   else [ELog LOG_INFO "Unknown command: %s" (StrArg kept)]).

(** The calls of the receive/echo stage up to and including the echo, for
    a read of [len_req] bytes that returned the bytes [got]. *)
Definition echo_effects (len_req : Z) (got : list byte) : list effect :=
  [EUartRead len_req (Z.of_nat (length got));
   ELog LOG_INFO "Received: %s" (StrArg (cstr got));
   EUartWrite got].

Definition add_effects (es : list effect) (w : world) : world :=
  {| gpio_level := gpio_level w; heap := heap w;
     command_queue := command_queue w; tasks := tasks w;
     trace := trace w ++ es |}.

(** Effects of the receive/echo stage: it neither takes entries from the
    relay queue nor drives the pin. *)
Definition echo_stage_effect (e : effect) : Prop :=
  is_queue_receive e = false /\ is_gpio_set e = false.

(** The two ways a turn of [uart_event_task] can change the world: it only
    adds calls to the trace, or it also puts a fresh terminated string on
    the heap and at the back of a queue that had room. *)
Inductive echo_change (w : world) : world -> Prop :=
| echo_quiet es :
    Forall echo_stage_effect es ->
    echo_change w (add_effects es w)
| echo_forwarded es text q :
    Forall echo_stage_effect es ->
    nul_free text ->
    command_queue w = Some q ->
    (length (q_items q) < q_capacity q)%nat ->
    echo_change w
      {| gpio_level := gpio_level w;
         heap := <[fresh (dom (heap w)) := text ++ [NUL]]> (heap w);
         command_queue :=
           Some {| q_capacity := q_capacity q;
                   q_items := q_items q ++ [fresh (dom (heap w))] |};
         tasks := tasks w;
         trace := trace w ++ es |}.

(** ** Sample inputs *)

(** A world in which the command task finds the entries [texts] queued, in
    blocks 1, 2, ... *)
Definition sample_blocks (texts : list (list byte))
  : list (positive * list byte) :=
  zip (Pos.of_nat <$> seq 1 (length texts)) ((fun t => t ++ [NUL]) <$> texts).

Definition sample_world (level : Z) (texts : list (list byte)) : world :=
  {| gpio_level := level;
     heap := list_to_map (sample_blocks texts);
     command_queue :=
       Some {| q_capacity := 5; q_items := (sample_blocks texts).*1 |};
     tasks := [UartEventTask; CommandProcessorTask];
     trace := [] |}.

Definition sample_data : list byte := replicate 1024 x2e.

(** A burst of 10,000 bytes without a line ending. *)
Definition sample_burst : list byte := replicate (Z.to_nat 10000) x41.

(** Start-up in which every call succeeds. *)
Definition all_ok : boot_env :=
  {| gpio_config_ok := true; uart_param_config_ok := true;
     uart_set_pin_ok := true; uart_driver_install_ok := true;
     queue_create_ok := true; uart_task_create_ok := true;
     command_task_create_ok := true |}.

(** Start-up in which only the creation of the relay queue fails. *)
Definition no_queue : boot_env :=
  {| gpio_config_ok := true; uart_param_config_ok := true;
     uart_set_pin_ok := true; uart_driver_install_ok := true;
     queue_create_ok := false; uart_task_create_ok := true;
     command_task_create_ok := true |}.

(** The system as [app_main] leaves it (as it was at reset, should
    [app_main] not return). *)
Definition boot (env : boot_env) (level0 : Z) : system :=
  match app_main env (power_on level0) with
  | Ok (_, w) => {| sys_world := w; uart_task := UartNotStarted |}
  | _ => {| sys_world := power_on level0; uart_task := UartNotStarted |}
  end.

(** [uart_event_task] takes its buffer and enters the loop. *)
Definition run_uart_start (data : list byte) (s : system) : system :=
  match uart_event_task_start (Some data) (sys_world s) with
  | Ok (st, w') => {| sys_world := w'; uart_task := st |}
  | _ => s
  end.

(** [uart_event_task] handles one event. *)
Definition run_uart_event (event : uart_event_t) (rx : rx_source)
    (alloc_ok : bool) (s : system) : system :=
  match uart_task s with
  | UartLooping data =>
      match uart_event_iteration event rx alloc_ok data (sys_world s) with
      | Ok (data', w') => {| sys_world := w'; uart_task := UartLooping data' |}
      | _ => s
      end
  | _ => s
  end.

(** The buffer of the running [uart_event_task]. *)
Definition uart_data (s : system) : list byte :=
  match uart_task s with
  | UartLooping data => data
  | _ => []
  end.

(** Five lines "ON\n" received while the command task does not run: the
    relay queue is full. *)
Definition sample_line : list byte := String.list_byte_of_string "ON" ++ [LF].

Definition sample_full : system :=
  Nat.iter 5
    (run_uart_event {| ev_type := UART_DATA; ev_size := 3 |}
       (RxAvail sample_line) true)
    (run_uart_start sample_data (boot all_ok 1)).

(** [command_processor_task] makes one turn. *)
Definition run_command (s : system) : system :=
  match command_processor_iteration (sys_world s) with
  | Ok (_, w') => {| sys_world := w'; uart_task := uart_task s |}
  | _ => s
  end.

(** Both tasks created, [uart_event_task] in its loop, nothing received. *)
Definition started : system := run_uart_start sample_data (boot all_ok 1).

(** A line arrives with a Data event that announces all of it, and the
    command task then handles what was queued. *)
Definition receive_line (line : list byte) (s : system) : system :=
  run_command
    (run_uart_event
       {| ev_type := UART_DATA; ev_size := Z.of_nat (length line) |}
       (RxAvail line) true s).

(** The calls made after those of [started]. *)
Definition calls_since_start (s : system) : list effect :=
  drop (length (trace (sys_world started))) (trace (sys_world s)).

(** The invariant of the pipeline between two scheduling steps: the queue
    has capacity 5 and holds at most 5 distinct entries, the live heap
    blocks are exactly the queued entries, each one a terminated string,
    tasks exist only with a queue, and the receive buffer has BUF_SIZE
    bytes. *)
Record pipeline_inv (s : system) : Prop := {
  inv_tasks :
    tasks (sys_world s) <> [] -> is_Some (command_queue (sys_world s));
  inv_no_queue :
    command_queue (sys_world s) = None -> heap (sys_world s) = ∅;
  inv_capacity : forall q,
    command_queue (sys_world s) = Some q ->
    q_capacity q = 5%nat /\ (length (q_items q) <= 5)%nat;
  inv_nodup : forall q,
    command_queue (sys_world s) = Some q -> NoDup (q_items q);
  inv_owned : forall q,
    command_queue (sys_world s) = Some q ->
    dom (heap (sys_world s)) = list_to_set (q_items q);
  inv_strings : forall p buf,
    heap (sys_world s) !! p = Some buf ->
    exists text, buf = text ++ [NUL] /\ nul_free text;
  inv_data : forall data,
    uart_task s = UartLooping data -> Z.of_nat (length data) = BUF_SIZE
}.

(** ** Views of a run *)

(** The bytes that a turn of [uart_event_task] reads for [event] when the
    driver offers [rx]: none unless the event is Data with a non-zero
    size and the read succeeds. *)
Definition bytes_read (event : uart_event_t) (rx : rx_source) : list byte :=
  match ev_type event with
  | UART_DATA =>
      if decide (ev_size event = 0) then []
      else match rx with
           | RxError => []
           | RxAvail bytes => take (Z.to_nat (clamp_rx_size (ev_size event))) bytes
           end
  | _ => []
  end.

(** The receive buffer after [got] was read into it and terminated. *)
Definition received (got data : list byte) : list byte :=
  match got with
  | [] => data
  | _ => got ++ NUL :: drop (S (length got)) data
  end.

(** The texts waiting in the relay queue, oldest first. *)
Definition pending (w : world) : list (list byte) :=
  match command_queue w with
  | Some q => (fun p => cstr (default [] (heap w !! p))) <$> q_items q
  | None => []
  end.

(** The inputs of one turn of [uart_event_task]: the event, what the
    driver offers, and whether the allocator has memory. *)
Definition uart_input : Type := uart_event_t * rx_source * bool.

(** [uart_event_task] handles a sequence of events. *)
Definition run_uart_events (inputs : list uart_input) (s : system) : system :=
  foldl (fun s i => run_uart_event i.1.1 i.1.2 i.2 s) s inputs.

(** The lines arrive one per Data event, with memory for each copy. *)
Definition line_input (line : list byte) : uart_input :=
  ({| ev_type := UART_DATA; ev_size := Z.of_nat (length line) |},
   RxAvail line, true).

(** The pin level after the commands [texts], handled in this order. *)
Definition commands_level (texts : list (list byte)) (level : Z) : Z :=
  foldl (fun g t => command_level (strip_eol t) g) level texts.


(** Start-up in which the command task cannot be created. *)
Definition no_command_task : boot_env :=
  {| gpio_config_ok := true; uart_param_config_ok := true;
     uart_set_pin_ok := true; uart_driver_install_ok := true;
     queue_create_ok := true; uart_task_create_ok := true;
     command_task_create_ok := false |}.

(** Start-up in which [uart_event_task] cannot be created. *)
Definition no_uart_task : boot_env :=
  {| gpio_config_ok := true; uart_param_config_ok := true;
     uart_set_pin_ok := true; uart_driver_install_ok := true;
     queue_create_ok := true; uart_task_create_ok := false;
     command_task_create_ok := true |}.

(** Start-up in which the driver cannot be installed. *)
Definition no_driver : boot_env :=
  {| gpio_config_ok := true; uart_param_config_ok := true;
     uart_set_pin_ok := true; uart_driver_install_ok := false;
     queue_create_ok := true; uart_task_create_ok := true;
     command_task_create_ok := true |}.

(** [uart_event_task] starts and finds no memory for its buffer. *)
Definition run_uart_start_failed (s : system) : system :=
  match uart_event_task_start None (sys_world s) with
  | Ok (st, w') => {| sys_world := w'; uart_task := st |}
  | _ => s
  end.

(** Four lines, the last of them a command. *)
Definition sample_lines : list (list byte) :=
  [String.list_byte_of_string "ON" ++ [LF];
   String.list_byte_of_string "hello" ++ [CR; LF];
   String.list_byte_of_string "OFF" ++ [CR; LF];
   String.list_byte_of_string "ON" ++ [CR; LF]].

(** * Properties *)

(** ** C strings *)

Lemma is_nul_spec c : is_nul c = true <-> c = NUL.
Proof. unfold NUL. split; [by destruct c | by intros ->]. Qed.

Lemma is_eol_not_nul c : is_eol c = true -> is_nul c = false.
Proof. by destruct c. Qed.

Lemma strlen_terminated text rest :
  nul_free text -> strlen (text ++ NUL :: rest) = Ok (Z.of_nat (length text)).
Proof.
  induction 1 as [|c text Hc _ IH]; [done|].
  cbn [app strlen length]. rewrite Hc, IH. cbn [obind]. f_equal. lia.
Qed.

Lemma cstr_terminated text rest :
  nul_free text -> cstr (text ++ NUL :: rest) = text.
Proof.
  induction 1 as [|c text Hc _ IH]; [done|].
  cbn [app cstr]. by rewrite Hc, IH.
Qed.

Lemma nul_free_app a b : nul_free (a ++ b) <-> nul_free a /\ nul_free b.
Proof. apply Forall_app. Qed.

(** ** The text that trimming keeps *)

Lemma strip_eol_nil_iff s : strip_eol s = [] <-> Forall (fun c => is_eol c = true) s.
Proof.
  induction s as [|c s IH]; [by split|].
  cbn [strip_eol]. split.
  - destruct (strip_eol s) eqn:E; [|done].
    destruct (is_eol c) eqn:Ec; [|done].
    intros _. constructor; [done|]. by apply IH.
  - intros H. inversion H as [|? ? Hc Hs]; subst.
    apply IH in Hs. by rewrite Hs, Hc.
Qed.

Lemma strip_eol_split s :
  exists suffix, s = strip_eol s ++ suffix /\
                 Forall (fun c => is_eol c = true) suffix.
Proof.
  induction s as [|c s (suffix & Hs & Hall)]; [by exists []|].
  cbn [strip_eol]. destruct (strip_eol s) as [|r0 r] eqn:E.
  - destruct (is_eol c) eqn:Ec.
    + exists (c :: s). split; [done|]. constructor; [done|].
      by apply strip_eol_nil_iff.
    + exists suffix. split; [|done]. cbn. f_equal. by rewrite Hs at 1.
  - exists suffix. split; [|done]. cbn. f_equal. by rewrite Hs at 1.
Qed.

Lemma strip_eol_no_eol_end s : no_eol_end (strip_eol s).
Proof.
  induction s as [|c s IH]; intros front d Heq.
  - by destruct front.
  - cbn [strip_eol] in Heq. destruct (strip_eol s) as [|r0 r] eqn:E.
    + destruct (is_eol c) eqn:Ec; [by destruct front|].
      destruct front as [|f front]; [by inversion Heq; subst|].
      inversion Heq. by destruct front.
    + destruct front as [|f front]; [done|].
      inversion Heq; subst. by eapply IH.
Qed.

Lemma strip_eol_unique kept suffix :
  no_eol_end kept -> Forall (fun c => is_eol c = true) suffix ->
  strip_eol (kept ++ suffix) = kept.
Proof.
  intros Hend Hsuf. induction kept as [|c kept IH].
  - by apply strip_eol_nil_iff.
  - cbn [app strip_eol]. rewrite IH.
    + destruct kept as [|k kept]; [|done].
      by rewrite (Hend [] c eq_refl).
    + intros front d ->. by apply (Hend (c :: front) d).
Qed.

(** ** The trim loop *)

Lemma insert_middle (l1 l2 : list byte) (x y : byte) :
  <[length l1 := y]> (l1 ++ x :: l2) = l1 ++ y :: l2.
Proof. rewrite <- (Nat.add_0_r (length l1)). by rewrite insert_app_r. Qed.

Lemma trim_loop_run kept suffix rest fuel :
  no_eol_end kept -> Forall (fun c => is_eol c = true) suffix ->
  (length suffix < fuel)%nat ->
  trim_loop fuel (kept ++ suffix ++ rest)
            (Z.of_nat (length (kept ++ suffix)) - 1)
  = Ok (kept ++ replicate (length suffix) NUL ++ rest).
Proof.
  intros Hend. revert rest fuel.
  induction suffix as [|c suffix IH] using rev_ind; intros rest fuel Hsuf Hfuel.
  - destruct fuel as [|fuel]; [cbn in Hfuel; lia|].
    rewrite app_nil_r. cbn [trim_loop app replicate length].
    case_decide as Hge; [|done].
    destruct kept as [|k kept _] using rev_ind; [cbn in Hge; lia|].
    unfold load. rewrite decide_True by done.
    rewrite length_app. cbn [length].
    replace (Z.to_nat (Z.of_nat (length kept + 1) - 1)) with (length kept) by lia.
    rewrite <- (assoc_L (++)). cbn [app].
    rewrite list_lookup_middle by done. cbn [obind].
    by rewrite (Hend kept k eq_refl).
  - apply Forall_app in Hsuf as [Hsuf Hc].
    apply (proj1 (Forall_singleton _ _)) in Hc. cbn beta in Hc.
    rewrite length_app in Hfuel. cbn [length] in Hfuel.
    destruct fuel as [|fuel]; [lia|].
    cbn [trim_loop].
    rewrite !length_app. cbn [length].
    rewrite decide_True by lia.
    set (i := (length kept + length suffix)%nat).
    replace (Z.of_nat (length kept + (length suffix + 1)) - 1) with (Z.of_nat i) by lia.
    assert (Hbuf : kept ++ (suffix ++ [c]) ++ rest = (kept ++ suffix) ++ c :: rest).
    { by rewrite <- !(assoc_L (++)). }
    rewrite Hbuf. unfold load, store.
    rewrite decide_True by lia. rewrite Nat2Z.id.
    assert (Hi : i = length (kept ++ suffix)) by (by rewrite length_app).
    rewrite list_lookup_middle by done. cbn [obind]. rewrite Hc.
    rewrite decide_True by (rewrite length_app; cbn [length]; lia).
    cbn [obind].
    rewrite Hi, insert_middle.
    rewrite <- (assoc_L (++)).
    rewrite (IH (NUL :: rest) fuel Hsuf) by lia.
    do 2 f_equal. rewrite Nat.add_1_r.
    by rewrite replicate_S_end, <- (assoc_L (++)).
Qed.

Lemma trim_loop_more_fuel fuel fuel' cmd end_ r :
  trim_loop fuel cmd end_ = Ok r -> (fuel <= fuel')%nat ->
  trim_loop fuel' cmd end_ = Ok r.
Proof.
  revert fuel' cmd end_. induction fuel as [|fuel IH]; intros fuel' cmd end_ H Hle.
  - discriminate.
  - destruct fuel' as [|fuel']; [lia|].
    cbn [trim_loop] in *. case_decide; [|done].
    destruct (load cmd end_) as [c| | |]; cbn [obind] in *; try done.
    destruct (is_eol c); [|done].
    destruct (store cmd end_ NUL) as [cmd'| | |]; cbn [obind] in *; try done.
    apply IH; [done|lia].
Qed.

(** Trimming a terminated string: the kept text stays, every byte of the
    line ending becomes NUL, the rest of the block is untouched. *)
Lemma trim_terminated text rest :
  nul_free text ->
  trim (text ++ NUL :: rest)
  = Ok (strip_eol text
          ++ replicate (length text - length (strip_eol text)) NUL
          ++ NUL :: rest).
Proof.
  intros Hnf. unfold trim. rewrite strlen_terminated by done. cbn [obind].
  destruct (strip_eol_split text) as (suffix & Hsplit & Hsuf).
  pose proof (strip_eol_no_eol_end text) as Hend.
  revert Hsplit Hend. generalize (strip_eol text). intros kept -> Hend.
  rewrite Nat2Z.id, length_app.
  replace (length kept + length suffix - length kept)%nat
    with (length suffix) by lia.
  rewrite <- (assoc_L (++)), <- length_app.
  apply trim_loop_run; [done|done|rewrite length_app; lia].
Qed.

Lemma cstr_trimmed kept n rest :
  nul_free kept -> cstr (kept ++ replicate n NUL ++ NUL :: rest) = kept.
Proof.
  intros Hnf. destruct n as [|n]; cbn [replicate app].
  - by apply cstr_terminated.
  - by apply cstr_terminated.
Qed.

Lemma strip_eol_nul_free text : nul_free text -> nul_free (strip_eol text).
Proof.
  intros Hnf. destruct (strip_eol_split text) as (suffix & Hsplit & _).
  rewrite Hsplit in Hnf. by apply nul_free_app in Hnf as [? _].
Qed.

(** ** strcmp on terminated strings *)

Lemma byte_diff_nonzero a b :
  Byte.eqb a b = false -> Z.of_N (Byte.to_N a) - Z.of_N (Byte.to_N b) <> 0.
Proof.
  intros Hne Hz. apply Byte.eqb_false in Hne. apply Hne.
  assert (Heq : Byte.to_N a = Byte.to_N b) by lia.
  pose proof (Byte.of_to_N a) as Ha. pose proof (Byte.of_to_N b) as Hb.
  rewrite Heq in Ha. congruence.
Qed.

Lemma strcmp_terminated t1 t2 r1 r2 :
  nul_free t1 -> nul_free t2 ->
  exists z : Z, strcmp (t1 ++ NUL :: r1) (t2 ++ NUL :: r2) = Ok z /\
                (z = 0 <-> t1 = t2).
Proof.
  intros H1. revert t2. induction H1 as [|c1 t1 Hc1 _ IH]; intros t2 H2.
  - destruct H2 as [|c2 t2 Hc2 _]; cbn [app strcmp].
    + exists 0. by cbn.
    + destruct (Byte.eqb NUL c2) eqn:E.
      * apply Byte.byte_dec_bl in E. subst c2. done.
      * eexists. split; [done|]. split; [|done].
        intros Hz. by apply byte_diff_nonzero in E.
  - destruct H2 as [|c2 t2 Hc2 H2]; cbn [app strcmp].
    + destruct (Byte.eqb c1 NUL) eqn:E.
      * apply Byte.byte_dec_bl in E. subst c1. done.
      * eexists. split; [done|]. split; [|done].
        intros Hz. by apply byte_diff_nonzero in E.
    + destruct (Byte.eqb c1 c2) eqn:E.
      * apply Byte.byte_dec_bl in E. subst c2. rewrite Hc1.
        destruct (IH t2 H2) as (z & Hz & Hiff). exists z. split; [done|].
        rewrite Hiff. split; [by intros ->|by inversion 1].
      * eexists. split; [done|]. split.
        -- intros Hz. by apply byte_diff_nonzero in E.
        -- inversion 1; subst. by rewrite (Byte.byte_dec_lb eq_refl) in E.
Qed.

(** ** Running code in the world *)

Lemma bind_ok {A B} (m : M A) (k : A -> M B) w a w' :
  m w = Ok (a, w') -> bind m k w = k a w'.
Proof. unfold bind. by intros ->. Qed.

Lemma lift_ok {A} (o : outcome A) a w : o = Ok a -> lift o w = Ok (a, w).
Proof. by intros ->. Qed.

Lemma world_eq w1 w2 :
  gpio_level w1 = gpio_level w2 -> heap w1 = heap w2 ->
  command_queue w1 = command_queue w2 -> tasks w1 = tasks w2 ->
  trace w1 = trace w2 -> w1 = w2.
Proof. destruct w1, w2; cbn; by intros -> -> -> -> ->. Qed.

(** ** The command stage on one entry *)

Lemma trimmed_shape n (rest : list byte) :
  replicate n NUL ++ NUL :: rest = NUL :: replicate n NUL ++ rest.
Proof. induction n as [|n IH]; [done|]. cbn [replicate app]. by rewrite IH. Qed.

Lemma strcmp_literal kept n rest (lit : string) :
  nul_free kept -> nul_free (String.list_byte_of_string lit) ->
  exists z : Z,
    strcmp (kept ++ replicate n NUL ++ NUL :: rest) (literal lit) = Ok z /\
    (z = 0 <-> kept = String.list_byte_of_string lit).
Proof.
  intros Hk Hl. rewrite trimmed_shape. unfold literal.
  by apply strcmp_terminated.
Qed.

Lemma process_command_spec w cmd text :
  heap w !! cmd = Some (text ++ [NUL]) -> nul_free text ->
  process_command cmd w
  = Ok (tt, {| gpio_level := command_level (strip_eol text) (gpio_level w);
               heap := delete cmd (heap w);
               command_queue := command_queue w;
               tasks := tasks w;
               trace := trace w ++ command_effects (strip_eol text) |}).
Proof.
  intros Hcmd Hnf. unfold process_command.
  erewrite bind_ok; [|unfold deref; by rewrite Hcmd].
  erewrite bind_ok; [|by apply lift_ok, trim_terminated].
  set (kept := strip_eol text).
  set (n := (length text - length kept)%nat).
  assert (Hk : nul_free kept) by by apply strip_eol_nul_free.
  erewrite bind_ok; [|unfold assign; by rewrite Hcmd].
  rewrite cstr_trimmed by done.
  erewrite bind_ok; [|reflexivity].
  destruct (strcmp_literal kept n [] "ON" Hk) as (on & Hon & Hon_iff).
  { by repeat constructor. }
  destruct (strcmp_literal kept n [] "OFF" Hk) as (off & Hoff & Hoff_iff).
  { by repeat constructor. }
  erewrite bind_ok; [|by apply lift_ok].
  fold ON_text in Hon_iff. fold OFF_text in Hoff_iff.
  assert (Hne : ON_text <> OFF_text) by done.
  unfold command_level, command_effects, bind, lift.
  destruct (decide (on = 0)) as [Hz|Hz].
  - apply Hon_iff in Hz.
    repeat case_decide; try congruence.
    unfold gpio_set_level, ESP_LOG, emit, free. cbn.
    rewrite lookup_insert_eq. do 2 f_equal.
    apply world_eq; cbn; try done.
    + by rewrite delete_insert_eq.
    + by rewrite <- !(assoc_L (++)).
  - rewrite Hoff. rewrite Hon_iff in Hz.
    destruct (decide (off = 0)) as [Hz'|Hz'].
    + apply Hoff_iff in Hz'.
      repeat case_decide; try congruence.
      unfold gpio_set_level, ESP_LOG, emit, free. cbn.
      rewrite lookup_insert_eq. do 2 f_equal.
      apply world_eq; cbn; try done.
      * by rewrite delete_insert_eq.
      * by rewrite <- !(assoc_L (++)).
    + rewrite Hoff_iff in Hz'.
      repeat case_decide; try congruence.
      unfold gpio_set_level, ESP_LOG, emit, free. cbn.
      rewrite lookup_insert_eq. do 2 f_equal.
      apply world_eq; cbn; try done.
      * by rewrite delete_insert_eq.
      * by rewrite <- !(assoc_L (++)).
Qed.

(** ** The receive/echo stage on a Data event *)

Lemma cstr_cut got rest : cstr (got ++ NUL :: rest) = cstr got.
Proof.
  induction got as [|c got IH]; [done|].
  cbn [app cstr]. destruct (is_nul c); [done|]. by rewrite IH.
Qed.

Lemma cstr_nul_free buf : nul_free (cstr buf).
Proof.
  induction buf as [|c buf IH]; [constructor|].
  cbn [cstr]. destruct (is_nul c) eqn:E; [constructor|]. by constructor.
Qed.

Lemma strlen_cut got rest :
  strlen (got ++ NUL :: rest) = Ok (Z.of_nat (length (cstr got))).
Proof.
  induction got as [|c got IH]; [done|].
  cbn [app cstr strlen]. destruct (is_nul c); [done|].
  rewrite IH. cbn [obind length]. f_equal. lia.
Qed.

Lemma clamp_rx_size_le size : clamp_rx_size size <= BUF_SIZE - 1.
Proof. unfold clamp_rx_size, BUF_SIZE. case_decide; lia. Qed.

Lemma clamp_rx_size_small size : size < BUF_SIZE -> clamp_rx_size size = size.
Proof. unfold clamp_rx_size, BUF_SIZE. case_decide; lia. Qed.

Lemma got_fits size (bytes data : list byte) :
  Z.of_nat (length data) = BUF_SIZE ->
  (length (take (Z.to_nat (clamp_rx_size size)) bytes) < length data)%nat.
Proof.
  intros Hdata. pose proof (clamp_rx_size_le size) as Hle.
  rewrite length_take. unfold BUF_SIZE in *. lia.
Qed.

Lemma terminate_received (got data : list byte) :
  (length got < length data)%nat ->
  store (got ++ drop (length got) data) (Z.of_nat (length got)) NUL
  = Ok (got ++ NUL :: drop (S (length got)) data).
Proof.
  intros Hlt. unfold store.
  destruct (lookup_lt_is_Some_2 data (length got) Hlt) as [x Hx].
  rewrite (drop_S data x (length got) Hx).
  rewrite decide_True by (rewrite length_app; cbn [length]; lia).
  by rewrite Nat2Z.id, insert_middle.
Qed.

Lemma uart_data_echo w size bytes alloc_ok data :
  size <> 0 ->
  take (Z.to_nat (clamp_rx_size size)) bytes <> [] ->
  Z.of_nat (length data) = BUF_SIZE ->
  let got := take (Z.to_nat (clamp_rx_size size)) bytes in
  let data' := got ++ NUL :: drop (S (length got)) data in
  uart_event_iteration {| ev_type := UART_DATA; ev_size := size |}
    (RxAvail bytes) alloc_ok data w
  = (forward_command alloc_ok data' ;; ret data')
      (add_effects (echo_effects (clamp_rx_size size) got) w).
Proof.
  intros Hsize Hgot Hdata got data'.
  pose proof (got_fits size bytes data Hdata) as Hfit. fold got in Hfit, Hgot.
  unfold uart_event_iteration. cbn [ev_type ev_size].
  rewrite decide_False by done.
  unfold uart_read_bytes. fold got.
  rewrite decide_True by lia.
  assert (Hpos : Z.of_nat (length got) > 0).
  { destruct got; [done|]. cbn [length]. lia. }
  unfold bind at 1. unfold bind at 1. unfold emit, ret at 1. cbn [fst snd].
  rewrite decide_True by done.
  erewrite bind_ok; [|by apply lift_ok, terminate_received].
  fold data'.
  erewrite bind_ok; [|reflexivity].
  unfold uart_write_bytes.
  rewrite decide_True.
  2:{ unfold data'. rewrite length_app. cbn [length]. lia. }
  erewrite bind_ok; [|reflexivity].
  rewrite Nat2Z.id.
  replace (take (length got) data') with got
    by (unfold data'; by rewrite take_app_length).
  replace (cstr data') with (cstr got) by (unfold data'; by rewrite cstr_cut).
  f_equal. unfold add_effects, add_trace, echo_effects. cbn.
  by rewrite <- !(assoc_L (++)).
Qed.

(** ** Forwarding the copy *)

Lemma forward_alloc_failed w got rest :
  forward_command false (got ++ NUL :: rest) w
  = Ok (tt, add_effects
              [ELog LOG_ERROR "Failed to duplicate command string" NoArg] w).
Proof.
  unfold forward_command, strdup.
  erewrite bind_ok; [|erewrite bind_ok; [|by apply lift_ok, strlen_cut]; reflexivity].
  reflexivity.
Qed.

Lemma forward_sent w q got rest :
  command_queue w = Some q ->
  (length (q_items q) < q_capacity q)%nat ->
  let p := fresh (dom (heap w)) in
  forward_command true (got ++ NUL :: rest) w
  = Ok (tt, {| gpio_level := gpio_level w;
               heap := <[p := cstr got ++ [NUL]]> (heap w);
               command_queue :=
                 Some {| q_capacity := q_capacity q;
                         q_items := q_items q ++ [p] |};
               tasks := tasks w;
               trace := trace w ++ [EQueueSend p true] |}).
Proof.
  intros Hq Hroom p. unfold forward_command, strdup.
  erewrite bind_ok; [|erewrite bind_ok; [|by apply lift_ok, strlen_cut]; reflexivity].
  rewrite cstr_cut. fold p.
  erewrite bind_ok.
  2:{ unfold xQueueSend. cbn. rewrite Hq. by rewrite decide_True. }
  reflexivity.
Qed.

Lemma forward_dropped w q got rest :
  command_queue w = Some q ->
  ~ (length (q_items q) < q_capacity q)%nat ->
  let p := fresh (dom (heap w)) in
  forward_command true (got ++ NUL :: rest) w
  = Ok (tt, add_effects
              [EQueueSend p false;
               ELog LOG_ERROR "Failed to send command to queue" NoArg] w).
Proof.
  intros Hq Hfull p. unfold forward_command, strdup.
  erewrite bind_ok; [|erewrite bind_ok; [|by apply lift_ok, strlen_cut]; reflexivity].
  rewrite cstr_cut. fold p.
  erewrite bind_ok.
  2:{ unfold xQueueSend. cbn. rewrite Hq. by rewrite decide_False. }
  unfold bind, free, ESP_LOG, emit. cbn. rewrite lookup_insert_eq.
  do 2 f_equal. apply world_eq; cbn; try done.
  - apply delete_insert_dom, is_fresh.
  - by rewrite <- (assoc_L (++)).
Qed.

(** ** Data events that bring nothing *)

Lemma uart_data_size_zero w rx alloc_ok data :
  uart_event_iteration {| ev_type := UART_DATA; ev_size := 0 |}
    rx alloc_ok data w = Ok (data, w).
Proof. reflexivity. Qed.

Lemma uart_data_read_error w size alloc_ok data :
  size <> 0 ->
  uart_event_iteration {| ev_type := UART_DATA; ev_size := size |}
    RxError alloc_ok data w
  = Ok (data, add_effects [EUartRead (clamp_rx_size size) (-1)] w).
Proof.
  intros Hsize. unfold uart_event_iteration. cbn [ev_type ev_size].
  by rewrite decide_False by done.
Qed.

Lemma uart_data_read_nothing w size bytes alloc_ok data :
  size <> 0 ->
  take (Z.to_nat (clamp_rx_size size)) bytes = [] ->
  uart_event_iteration {| ev_type := UART_DATA; ev_size := size |}
    (RxAvail bytes) alloc_ok data w
  = Ok (data, add_effects [EUartRead (clamp_rx_size size) 0] w).
Proof.
  intros Hsize Hgot. unfold uart_event_iteration. cbn [ev_type ev_size].
  rewrite decide_False by done.
  unfold uart_read_bytes. rewrite Hgot. cbn [length].
  rewrite decide_True by lia. cbn. by rewrite drop_0.
Qed.

(** ** Every turn of the receive/echo stage *)

Lemma add_effects_add_effects es1 es2 w :
  add_effects es2 (add_effects es1 w) = add_effects (es1 ++ es2) w.
Proof. unfold add_effects. cbn. by rewrite (assoc_L (++)). Qed.

Lemma add_trace_effects e w : add_trace e w = add_effects [e] w.
Proof. reflexivity. Qed.

Lemma add_effects_nil w : add_effects [] w = w.
Proof. destruct w. unfold add_effects. cbn. by rewrite app_nil_r. Qed.

Lemma echo_effects_stage len_req got :
  Forall echo_stage_effect (echo_effects len_req got).
Proof. by repeat constructor. Qed.

Lemma received_length (got data : list byte) :
  (length got < length data)%nat ->
  length (got ++ NUL :: drop (S (length got)) data) = length data.
Proof.
  intros Hlt. rewrite length_app. cbn [length]. rewrite length_drop. lia.
Qed.

Lemma uart_event_iteration_runs event rx alloc_ok data w q :
  Z.of_nat (length data) = BUF_SIZE ->
  command_queue w = Some q ->
  exists data' w',
    uart_event_iteration event rx alloc_ok data w = Ok (data', w') /\
    Z.of_nat (length data') = BUF_SIZE /\
    echo_change w w'.
Proof.
  intros Hdata Hq. destruct event as [ty size]. destruct ty.
  2-6: eexists data, _; (split; [reflexivity|]); (split; [done|]).
  2-6: rewrite !add_trace_effects, ?add_effects_add_effects.
  2-6: constructor; by repeat constructor.
  - (* UART_DATA *)
    destruct (decide (size = 0)) as [->|Hsize].
    { exists data, w. split; [done|]. split; [done|].
      rewrite <- (add_effects_nil w) at 2. by constructor. }
    destruct rx as [|bytes].
    { eexists _, _. split; [by apply uart_data_read_error|].
      split; [done|]. constructor. by repeat constructor. }
    destruct (decide (take (Z.to_nat (clamp_rx_size size)) bytes = []))
      as [Hgot|Hgot].
    { eexists _, _. split; [by apply uart_data_read_nothing|].
      split; [done|]. constructor. by repeat constructor. }
    pose proof (got_fits size bytes data Hdata) as Hfit.
    pose proof (uart_data_echo w size bytes alloc_ok data Hsize Hgot Hdata)
      as Hecho.
    cbv zeta in Hecho. revert Hfit Hecho.
    generalize (take (Z.to_nat (clamp_rx_size size)) bytes). clear Hgot.
    intros got Hfit Hecho.
    set (data' := got ++ NUL :: drop (S (length got)) data) in *.
    assert (Hlen : Z.of_nat (length data') = BUF_SIZE).
    { unfold data'. by rewrite received_length. }
    pose proof (echo_effects_stage (clamp_rx_size size) got) as Hes.
    revert Hes Hecho. generalize (echo_effects (clamp_rx_size size) got).
    intros es Hes Hecho.
    destruct alloc_ok.
    + destruct (decide (length (q_items q) < q_capacity q)%nat) as [Hroom|Hfull].
      * eexists data', _. split.
        { rewrite Hecho. erewrite bind_ok; [reflexivity|].
          unfold data'. by eapply forward_sent. }
        split; [done|]. cbn. rewrite <- (assoc_L (++)).
        apply (echo_forwarded w (es ++ [EQueueSend (fresh (dom (heap w))) true])
                 (cstr got) q); try done.
        -- apply Forall_app. split; [done|]. by repeat constructor.
        -- apply cstr_nul_free.
      * eexists data', _. split.
        { rewrite Hecho. erewrite bind_ok; [reflexivity|].
          unfold data'. by eapply forward_dropped. }
        split; [done|]. cbn. rewrite add_effects_add_effects. constructor.
        apply Forall_app. split; [done|]. by repeat constructor.
    + eexists data', _. split.
      { rewrite Hecho. erewrite bind_ok; [reflexivity|].
        unfold data'. by apply forward_alloc_failed. }
      split; [done|]. rewrite add_effects_add_effects. constructor.
      apply Forall_app. split; [done|]. by repeat constructor.
Qed.

(** ** Every turn of the command stage *)

Lemma command_iteration_idle w q :
  command_queue w = Some q -> q_items q = [] ->
  command_processor_iteration w = Ok (tt, w).
Proof.
  intros Hq Hitems. unfold command_processor_iteration, bind, xQueueReceive.
  by rewrite Hq, Hitems.
Qed.

Lemma command_iteration_spec w q cmd rest text :
  command_queue w = Some q -> q_items q = cmd :: rest ->
  heap w !! cmd = Some (text ++ [NUL]) -> nul_free text ->
  command_processor_iteration w
  = Ok (tt, {| gpio_level := command_level (strip_eol text) (gpio_level w);
               heap := delete cmd (heap w);
               command_queue :=
                 Some {| q_capacity := q_capacity q; q_items := rest |};
               tasks := tasks w;
               trace := trace w ++ EQueueReceive cmd
                                   :: command_effects (strip_eol text) |}).
Proof.
  intros Hq Hitems Hcmd Hnf. unfold command_processor_iteration.
  erewrite bind_ok; [|unfold xQueueReceive; by rewrite Hq, Hitems].
  rewrite (process_command_spec _ cmd text) by done.
  do 2 f_equal. apply world_eq; cbn; try done.
  by rewrite <- (assoc_L (++)).
Qed.

(** ** The invariant *)

Lemma boot_inv env level0 w :
  app_main env (power_on level0) = Ok (tt, w) ->
  pipeline_inv {| sys_world := w; uart_task := UartNotStarted |}.
Proof.
  destruct env as [[] [] [] [] [] [] []]; cbn; intros [= <-].
  all: split; cbn; try done.
  all: try (intros q [= <-]; cbn; first [by split; [|lia] | constructor | done]).
  all: try by (intros _; eexists).
Qed.

Lemma echo_change_inv w w' st st' :
  pipeline_inv {| sys_world := w; uart_task := st |} ->
  echo_change w w' ->
  (forall data, st' = UartLooping data -> Z.of_nat (length data) = BUF_SIZE) ->
  pipeline_inv {| sys_world := w'; uart_task := st' |}.
Proof.
  intros [Ht Hn Hc Hd Ho Hs _] Hch Hdata. cbn in *.
  destruct Hch as [es _|es text q _ Htext Hq Hroom]; split; cbn; try done.
  - intros q' [= <-]. cbn. destruct (Hc q Hq) as [Hcap Hlen].
    split; [done|]. rewrite length_app. cbn. lia.
  - intros q' [= <-]. cbn. apply NoDup_app. split; [by apply Hd|].
    split; [|apply NoDup_singleton].
    intros p Hp ->%list_elem_of_singleton.
    apply (is_fresh (dom (heap w))). rewrite (Ho q Hq) in Hp |- *.
    by apply elem_of_list_to_set.
  - intros q' [= <-]. cbn. rewrite dom_insert_L. apply set_eq. intros x.
    rewrite elem_of_union, elem_of_singleton, (Ho q Hq).
    rewrite !elem_of_list_to_set, elem_of_app, list_elem_of_singleton. tauto.
  - intros p buf. rewrite lookup_insert. case_decide.
    + intros [= <-]. by exists text.
    + apply Hs.
Qed.

Lemma command_change_inv w q cmd rest level es st :
  pipeline_inv {| sys_world := w; uart_task := st |} ->
  command_queue w = Some q -> q_items q = cmd :: rest ->
  pipeline_inv
    {| sys_world :=
         {| gpio_level := level;
            heap := delete cmd (heap w);
            command_queue :=
              Some {| q_capacity := q_capacity q; q_items := rest |};
            tasks := tasks w;
            trace := es |};
       uart_task := st |}.
Proof.
  intros [Ht Hn Hc Hd Ho Hs Hdata] Hq Hitems. cbn in *.
  specialize (Hc q Hq). specialize (Hd q Hq). specialize (Ho q Hq).
  rewrite Hitems in Hc, Hd, Ho. apply NoDup_cons in Hd as [Hnotin Hd].
  split; cbn; try done.
  - intros q' [= <-]. cbn in *. split; [tauto|lia].
  - by intros q' [= <-].
  - intros q' [= <-]. cbn in *. rewrite dom_delete_L, Ho.
    apply set_eq. intros p. rewrite elem_of_difference, elem_of_union.
    rewrite elem_of_singleton, !elem_of_list_to_set. split.
    + by intros [[->|?] ?].
    + intros Hx. split; [by right|]. by intros ->.
  - intros p buf [_ Hp]%lookup_delete_Some. by eapply Hs.
Qed.

Lemma echo_change_summary w w' :
  echo_change w w' ->
  gpio_level w' = gpio_level w /\ tasks w' = tasks w /\
  exists es, trace w' = trace w ++ es /\ Forall echo_stage_effect es.
Proof. intros [es Hes|es text q Hes _ _ _]; cbn; eauto. Qed.

(** What one scheduling step does, seen from outside: the invariant
    survives, the trace grows, and the pin changes only in a step of the
    command task that took an entry from the queue. *)
Lemma step_summary t s s' :
  pipeline_inv s -> step t s s' ->
  pipeline_inv s' /\
  tasks (sys_world s') = tasks (sys_world s) /\
  exists es,
    trace (sys_world s') = trace (sys_world s) ++ es /\
    (gpio_level (sys_world s') = gpio_level (sys_world s) \/
     t = CommandProcessorTask /\ Exists (fun e => is_queue_receive e = true) es).
Proof.
  intros Hinv Hstep. destruct Hstep as
    [s malloc_result st w' Hin Hst Hmalloc Hrun
    |s data event rx alloc_ok data' w' Hin Hst Hrun
    |s w' Hin Hrun]; destruct s as [w st0]; cbn in *.
  - assert (Hch : echo_change w w').
    { destruct malloc_result as [data|]; cbn in Hrun; injection Hrun as <- <-.
      - rewrite <- (add_effects_nil w) at 2. by constructor.
      - rewrite !add_trace_effects, add_effects_add_effects.
        constructor. by repeat constructor. }
    destruct (echo_change_summary _ _ Hch) as (Hg & Ht & es & Hes & _).
    split; [|by eauto 6].
    apply (echo_change_inv w w' st0); [done|done|].
    intros data ->. destruct malloc_result as [data0|]; cbn in Hrun; [|done].
    inversion Hrun; subst. by apply Hmalloc.
  - subst st0.
    assert (Hdata : Z.of_nat (length data) = BUF_SIZE) by by apply Hinv.
    destruct (inv_tasks _ Hinv) as [q Hq]; cbn.
    { intros Hnil. rewrite Hnil in Hin. by apply elem_of_nil in Hin. }
    destruct (uart_event_iteration_runs event rx alloc_ok data w q Hdata Hq)
      as (d & w1 & Hrun' & Hlen & Hch).
    rewrite Hrun in Hrun'. injection Hrun' as -> ->.
    destruct (echo_change_summary _ _ Hch) as (Hg & Ht & es & Hes & _).
    split; [|by eauto 6].
    apply (echo_change_inv w w1 (UartLooping data)); [done|done|].
    by intros ? [= <-].
  - destruct (inv_tasks _ Hinv) as [q Hq]; cbn.
    { intros Hnil. rewrite Hnil in Hin. by apply elem_of_nil in Hin. }
    destruct (q_items q) as [|cmd rest] eqn:Hitems.
    + rewrite (command_iteration_idle w q Hq Hitems) in Hrun.
      injection Hrun as <-. split; [done|]. split; [done|].
      exists []. rewrite app_nil_r. by split; [|left].
    + assert (Hcmd : is_Some (heap w !! cmd)).
      { apply elem_of_dom. pose proof (inv_owned _ Hinv q Hq) as Ho.
        cbn in Ho. rewrite Ho, Hitems. apply elem_of_list_to_set. by left. }
      destruct Hcmd as [buf Hbuf].
      destruct (inv_strings _ Hinv cmd buf Hbuf) as (text & -> & Hnf).
      rewrite (command_iteration_spec w q cmd rest text Hq Hitems Hbuf Hnf)
        in Hrun.
      injection Hrun as <-. split; [by apply command_change_inv|].
      split; [done|]. cbn. eexists. split; [done|]. right.
      split; [done|]. by constructor.
Qed.

Lemma reachable_inv s : reachable s -> pipeline_inv s.
Proof.
  intros (env & level0 & s0 & (w & Hboot & ->) & Hrun).
  eapply (rtc_ind_r (fun s => pipeline_inv s)); [| |exact Hrun].
  - by eapply boot_inv.
  - intros s1 s2 _ [t Hstep] IH. by destruct (step_summary t _ _ IH Hstep).
Qed.

(** * The command stage *)

(** C1: for every entry the command stage takes from the relay queue, with
    [buf] the entry after the trim of its trailing CR/LF bytes: when the
    trimmed text is "ON" the output state becomes 1, otherwise when it is
    "OFF" the output state becomes 0, and for every other text the output
    state stays as it was. *)
Theorem command_sets_output_state w q cmd rest text :
  command_queue w = Some q -> q_items q = cmd :: rest ->
  heap w !! cmd = Some (text ++ [NUL]) -> nul_free text ->
  exists buf w',
    trim (text ++ [NUL]) = Ok buf /\
    cstr buf = strip_eol text /\
    command_processor_iteration w = Ok (tt, w') /\
    (cstr buf = ON_text -> gpio_level w' = 1) /\
    (cstr buf <> ON_text -> cstr buf = OFF_text -> gpio_level w' = 0) /\
    (cstr buf <> ON_text -> cstr buf <> OFF_text ->
     gpio_level w' = gpio_level w).
Proof.
  intros Hq Hitems Hcmd Hnf.
  eexists _, _. split; [by apply trim_terminated|].
  rewrite cstr_trimmed by by apply strip_eol_nul_free.
  split; [done|].
  split; [by eapply command_iteration_spec|].
  cbn [gpio_level]. unfold command_level.
  repeat split; intros; repeat case_decide; congruence.
Qed.

Lemma command_sets_output_state_witness :
  let w := sample_world 0 [String.list_byte_of_string "ON" ++ [CR; LF]] in
  (command_queue w = Some {| q_capacity := 5; q_items := [1%positive] |} /\
   heap w !! 1%positive
   = Some ((String.list_byte_of_string "ON" ++ [CR; LF]) ++ [NUL]) /\
   nul_free (String.list_byte_of_string "ON" ++ [CR; LF])) /\
  exists buf w',
    trim ((String.list_byte_of_string "ON" ++ [CR; LF]) ++ [NUL]) = Ok buf /\
    cstr buf = strip_eol (String.list_byte_of_string "ON" ++ [CR; LF]) /\
    command_processor_iteration w = Ok (tt, w') /\
    (cstr buf = ON_text -> gpio_level w' = 1) /\
    (cstr buf <> ON_text -> cstr buf = OFF_text -> gpio_level w' = 0) /\
    (cstr buf <> ON_text -> cstr buf <> OFF_text ->
     gpio_level w' = gpio_level w).
Proof.
  intros w.
  assert (Hq : command_queue w
               = Some {| q_capacity := 5; q_items := [1%positive] |})
    by reflexivity.
  assert (Hcmd : heap w !! 1%positive
                 = Some ((String.list_byte_of_string "ON" ++ [CR; LF])
                           ++ [NUL])) by reflexivity.
  assert (Hnf : nul_free (String.list_byte_of_string "ON" ++ [CR; LF]))
    by (repeat constructor).
  split; [done|].
  exact (command_sets_output_state w _ 1%positive [] _ Hq eq_refl Hcmd Hnf).
Defined.

(** C3: on a terminated entry whose text is [text], the trim turns exactly
    the longest final run [suffix] of LF and CR bytes into NUL bytes: the
    part [kept] before it (which is empty or ends in another byte, and may
    hold LF, CR or blanks anywhere else) and everything after the
    terminator stay as they were. *)
Theorem trim_removes_trailing_eol text rest :
  nul_free text ->
  exists kept suffix,
    text = kept ++ suffix /\
    Forall (fun c => is_eol c = true) suffix /\
    no_eol_end kept /\
    trim (text ++ NUL :: rest)
    = Ok (kept ++ replicate (length suffix) NUL ++ NUL :: rest) /\
    cstr (kept ++ replicate (length suffix) NUL ++ NUL :: rest) = kept.
Proof.
  intros Hnf. destruct (strip_eol_split text) as (suffix & Hsplit & Hsuf).
  exists (strip_eol text), suffix.
  split; [done|]. split; [done|]. split; [apply strip_eol_no_eol_end|].
  split.
  - rewrite trim_terminated by done.
    pose proof (f_equal length Hsplit) as Hlen. rewrite length_app in Hlen.
    by replace (length text - length (strip_eol text))%nat
      with (length suffix) by lia.
  - by apply cstr_trimmed, strip_eol_nul_free.
Qed.

Lemma trim_removes_trailing_eol_witness :
  nul_free [x20; x61; CR; x62; LF; CR; LF] /\
  exists kept suffix,
    [x20; x61; CR; x62; LF; CR; LF] = kept ++ suffix /\
    Forall (fun c => is_eol c = true) suffix /\
    no_eol_end kept /\
    trim ([x20; x61; CR; x62; LF; CR; LF] ++ NUL :: [x7a])
    = Ok (kept ++ replicate (length suffix) NUL ++ NUL :: [x7a]) /\
    cstr (kept ++ replicate (length suffix) NUL ++ NUL :: [x7a]) = kept.
Proof.
  assert (Hnf : nul_free [x20; x61; CR; x62; LF; CR; LF])
    by (repeat constructor).
  split; [done|].
  exact (trim_removes_trailing_eol _ [x7a] Hnf).
Defined.

Lemma command_level_idem lit level g :
  lit = ON_text /\ level = 1 \/ lit = OFF_text /\ level = 0 ->
  command_level lit g = level.
Proof.
  unfold command_level. intros [[-> ->]|[-> ->]]; repeat case_decide; done.
Qed.

(** C6: whatever the output state is, two entries in a row whose trimmed
    text is "ON" leave it at 1 after the first and still at 1 after the
    second; the same holds for "OFF" and 0.  Nothing toggles. *)
Theorem command_idempotent w q c1 c2 rest t1 t2 lit level :
  lit = ON_text /\ level = 1 \/ lit = OFF_text /\ level = 0 ->
  command_queue w = Some q -> q_items q = c1 :: c2 :: rest -> c1 <> c2 ->
  heap w !! c1 = Some (t1 ++ [NUL]) -> heap w !! c2 = Some (t2 ++ [NUL]) ->
  nul_free t1 -> nul_free t2 ->
  strip_eol t1 = lit -> strip_eol t2 = lit ->
  exists w1 w2,
    command_processor_iteration w = Ok (tt, w1) /\
    command_processor_iteration w1 = Ok (tt, w2) /\
    gpio_level w1 = level /\ gpio_level w2 = level.
Proof.
  intros Hlit Hq Hitems Hne H1 H2 Hnf1 Hnf2 Ht1 Ht2.
  eexists _, _. split; [by eapply command_iteration_spec|].
  split.
  - eapply command_iteration_spec; cbn; try done.
    by rewrite lookup_delete_ne.
  - cbn. rewrite Ht1, Ht2. split; by apply command_level_idem.
Qed.

Lemma command_idempotent_witness :
  let w := sample_world 0 [ON_text; ON_text ++ [LF]] in
  (command_queue w
   = Some {| q_capacity := 5; q_items := [1%positive; 2%positive] |} /\
   heap w !! 1%positive = Some (ON_text ++ [NUL]) /\
   heap w !! 2%positive = Some ((ON_text ++ [LF]) ++ [NUL]) /\
   nul_free ON_text /\ nul_free (ON_text ++ [LF]) /\
   strip_eol ON_text = ON_text /\ strip_eol (ON_text ++ [LF]) = ON_text) /\
  exists w1 w2,
    command_processor_iteration w = Ok (tt, w1) /\
    command_processor_iteration w1 = Ok (tt, w2) /\
    gpio_level w1 = 1 /\ gpio_level w2 = 1.
Proof.
  intros w.
  assert (Hq : command_queue w
               = Some {| q_capacity := 5;
                         q_items := [1%positive; 2%positive] |})
    by reflexivity.
  assert (H1 : heap w !! 1%positive = Some (ON_text ++ [NUL])) by reflexivity.
  assert (H2 : heap w !! 2%positive = Some ((ON_text ++ [LF]) ++ [NUL]))
    by reflexivity.
  assert (Hnf1 : nul_free ON_text) by (repeat constructor).
  assert (Hnf2 : nul_free (ON_text ++ [LF])) by (repeat constructor).
  assert (Ht1 : strip_eol ON_text = ON_text) by reflexivity.
  assert (Ht2 : strip_eol (ON_text ++ [LF]) = ON_text) by reflexivity.
  split; [done|].
  refine (command_idempotent w _ 1%positive 2%positive [] _ _ ON_text 1
            (or_introl (conj eq_refl eq_refl)) Hq eq_refl _ H1 H2 Hnf1 Hnf2
            Ht1 Ht2).
  discriminate.
Defined.

(** * The receive/echo stage *)

Lemma uart_tx_app tr1 tr2 : uart_tx (tr1 ++ tr2) = uart_tx tr1 ++ uart_tx tr2.
Proof.
  induction tr1 as [|e tr1 IH]; [done|].
  destruct e; cbn [app uart_tx]; try done. by rewrite IH, (assoc_L (++)).
Qed.

Lemma uart_tx_silent tr :
  Forall (fun e => is_uart_write e = false) tr -> uart_tx tr = [].
Proof. induction 1 as [|e tr He _ IH]; [done|]. by destruct e. Qed.

Lemma forward_command_runs alloc_ok got rest w q :
  command_queue w = Some q ->
  exists w' post,
    forward_command alloc_ok (got ++ NUL :: rest) w = Ok (tt, w') /\
    trace w' = trace w ++ post /\
    gpio_level w' = gpio_level w /\
    Forall (fun e => is_uart_write e = false) post.
Proof.
  intros Hq. destruct alloc_ok.
  - destruct (decide (length (q_items q) < q_capacity q)%nat) as [Hroom|Hfull].
    + eexists _, _. split; [by eapply forward_sent|]. cbn.
      split; [done|]. split; [done|]. by repeat constructor.
    + eexists _, _. split; [by eapply forward_dropped|]. cbn.
      split; [done|]. split; [done|]. by repeat constructor.
  - eexists _, _. split; [by apply forward_alloc_failed|]. cbn.
    split; [done|]. split; [done|]. by repeat constructor.
Qed.

Lemma take_all_input (input : list byte) :
  Z.of_nat (length input) < BUF_SIZE ->
  take (Z.to_nat (clamp_rx_size (Z.of_nat (length input)))) input = input.
Proof.
  intros Hlt. rewrite clamp_rx_size_small by done.
  rewrite Nat2Z.id. apply firstn_all.
Qed.

(** C2: an input shorter than BUF_SIZE-1 that arrives with a Data event is
    written back as it was read, the same bytes in one write, and the calls
    of that turn are in this order: the read, the log line, the echo write,
    and only then [post], which holds the attempt to enqueue the copy and
    no further write.  The pin is not touched. *)
Theorem echo_before_enqueue w q input alloc_ok data :
  command_queue w = Some q ->
  Z.of_nat (length data) = BUF_SIZE ->
  Z.of_nat (length input) < BUF_SIZE - 1 ->
  exists data' w' post,
    uart_event_iteration
      {| ev_type := UART_DATA; ev_size := Z.of_nat (length input) |}
      (RxAvail input) alloc_ok data w = Ok (data', w') /\
    trace w'
    = trace w
      ++ (if decide (input = []) then []
          else [EUartRead (Z.of_nat (length input)) (Z.of_nat (length input));
                ELog LOG_INFO "Received: %s" (StrArg (cstr input));
                EUartWrite input])
      ++ post /\
    Forall (fun e => is_uart_write e = false) post /\
    (input <> [] -> alloc_ok = true ->
     exists p passed, In (EQueueSend p passed) post) /\
    uart_tx (trace w') = uart_tx (trace w) ++ input /\
    gpio_level w' = gpio_level w.
Proof.
  intros Hq Hdata Hlen. destruct (decide (input = [])) as [->|Hne].
  - exists data, w, []. cbn. rewrite !app_nil_r. by repeat split.
  - assert (Hsize : Z.of_nat (length input) <> 0).
    { destruct input; [done|]. cbn [length]. lia. }
    assert (Hlt : Z.of_nat (length input) < BUF_SIZE) by lia.
    pose proof (uart_data_echo w _ input alloc_ok data Hsize) as Hecho.
    rewrite take_all_input in Hecho by done.
    specialize (Hecho Hne Hdata). cbv zeta in Hecho.
    rewrite clamp_rx_size_small in Hecho by done.
    set (w1 := add_effects _ w) in Hecho.
    destruct (forward_command_runs alloc_ok input
                (drop (S (length input)) data) w1 q Hq)
      as (w' & post & Hfw & Htr & Hg & Hpost).
    eexists _, w', post. split.
    { rewrite Hecho. erewrite bind_ok; [reflexivity|done]. }
    assert (Htrace : trace w' = trace w
                     ++ echo_effects (Z.of_nat (length input)) input ++ post).
    { rewrite Htr. unfold w1. cbn. by rewrite <- (assoc_L (++)). }
    split; [done|]. split; [done|]. split; [|split; [|done]].
    + intros _ ->.
      destruct (decide (length (q_items q) < q_capacity q)%nat) as [Hroom|Hfull].
      * rewrite (forward_sent w1 q _ _ Hq Hroom) in Hfw.
        injection Hfw as <-. cbn in Htr. apply app_inv_head in Htr as <-.
        eexists _, _. by left.
      * rewrite (forward_dropped w1 q _ _ Hq Hfull) in Hfw.
        injection Hfw as <-. cbn in Htr. apply app_inv_head in Htr as <-.
        eexists _, _. by left.
    + rewrite Htrace, !uart_tx_app, (uart_tx_silent post) by done.
      cbn. by rewrite !app_nil_r.
Qed.

Lemma echo_before_enqueue_witness :
  let w := sample_world 0 [] in
  let input := String.list_byte_of_string "ON" ++ [LF] in
  (command_queue w = Some {| q_capacity := 5; q_items := [] |} /\
   Z.of_nat (length sample_data) = BUF_SIZE /\
   Z.of_nat (length input) < BUF_SIZE - 1) /\
  exists data' w' post,
    uart_event_iteration
      {| ev_type := UART_DATA; ev_size := Z.of_nat (length input) |}
      (RxAvail input) true sample_data w = Ok (data', w') /\
    trace w'
    = trace w
      ++ (if decide (input = []) then []
          else [EUartRead (Z.of_nat (length input)) (Z.of_nat (length input));
                ELog LOG_INFO "Received: %s" (StrArg (cstr input));
                EUartWrite input])
      ++ post /\
    Forall (fun e => is_uart_write e = false) post /\
    (input <> [] -> true = true ->
     exists p passed, In (EQueueSend p passed) post) /\
    uart_tx (trace w') = uart_tx (trace w) ++ input /\
    gpio_level w' = gpio_level w.
Proof.
  intros w input.
  assert (Hq : command_queue w = Some {| q_capacity := 5; q_items := [] |})
    by reflexivity.
  assert (Hdata : Z.of_nat (length sample_data) = BUF_SIZE) by reflexivity.
  assert (Hlen : Z.of_nat (length input) < BUF_SIZE - 1) by reflexivity.
  split; [done|].
  exact (echo_before_enqueue w _ input true sample_data Hq Hdata Hlen).
Defined.

Lemma clamp_rx_size_min size : clamp_rx_size size = Z.min size (BUF_SIZE - 1).
Proof. unfold clamp_rx_size, BUF_SIZE. case_decide; lia. Qed.

(** C4: on a Data(size) event the read asks for [size] bytes clamped to
    BUF_SIZE-1, so never more than BUF_SIZE-1 bytes come back.  With size 0
    the turn does nothing at all; when the read returns zero or fewer bytes
    the read call is all that happened: no echo, no log, no copy, no
    enqueue, and the buffer, the heap, the queue and the pin are as
    before. *)
Theorem data_event_clamped_read w q size rx alloc_ok data :
  command_queue w = Some q ->
  Z.of_nat (length data) = BUF_SIZE ->
  clamp_rx_size size = Z.min size (BUF_SIZE - 1) /\
  (size = 0 ->
   uart_event_iteration {| ev_type := UART_DATA; ev_size := size |}
     rx alloc_ok data w = Ok (data, w)) /\
  (size <> 0 ->
   exists data' w' len more,
     uart_event_iteration {| ev_type := UART_DATA; ev_size := size |}
       rx alloc_ok data w = Ok (data', w') /\
     trace w' = trace w ++ EUartRead (clamp_rx_size size) len :: more /\
     clamp_rx_size size <= BUF_SIZE - 1 /\
     len <= BUF_SIZE - 1 /\
     (0 <= size -> len <= clamp_rx_size size) /\
     (len <= 0 ->
      data' = data /\
      w' = add_effects [EUartRead (clamp_rx_size size) len] w)).
Proof.
  intros Hq Hdata. split; [apply clamp_rx_size_min|].
  split; [by intros ->|]. intros Hsize.
  pose proof (clamp_rx_size_le size) as Hclamp.
  destruct rx as [|bytes].
  { eexists data, _, (-1), []. split; [by apply uart_data_read_error|].
    unfold BUF_SIZE in *. repeat split; try done; try lia.
    intros Hpos. rewrite clamp_rx_size_min. unfold BUF_SIZE. lia. }
  destruct (decide (take (Z.to_nat (clamp_rx_size size)) bytes = []))
    as [Hgot|Hgot].
  { eexists data, _, 0, []. split; [by apply uart_data_read_nothing|].
    unfold BUF_SIZE in *. repeat split; try done; try lia.
    intros Hpos. rewrite clamp_rx_size_min. unfold BUF_SIZE. lia. }
  pose proof (uart_data_echo w size bytes alloc_ok data Hsize Hgot Hdata)
    as Hecho. cbv zeta in Hecho.
  set (got := take (Z.to_nat (clamp_rx_size size)) bytes) in *.
  set (w1 := add_effects _ w) in Hecho.
  destruct (forward_command_runs alloc_ok got
              (drop (S (length got)) data) w1 q Hq)
    as (w' & post & Hfw & Htr & _ & _).
  assert (Hlen : (length got <= Z.to_nat (clamp_rx_size size))%nat).
  { unfold got. rewrite length_take. lia. }
  eexists _, w', (Z.of_nat (length got)), _. split.
  { rewrite Hecho. erewrite bind_ok; [reflexivity|done]. }
  split.
  { rewrite Htr. unfold w1. cbn. by rewrite <- (assoc_L (++)). }
  pose proof (clamp_rx_size_min size) as Hmin.
  split; [done|]. unfold BUF_SIZE in *.
  split; [lia|]. split; [lia|].
  intros Hle. destruct got; [done|]. cbn [length] in Hle. lia.
Qed.

Lemma data_event_clamped_read_witness :
  let w := sample_world 0 [] in
  (command_queue w = Some {| q_capacity := 5; q_items := [] |} /\
   Z.of_nat (length sample_data) = BUF_SIZE) /\
  clamp_rx_size 10000 = Z.min 10000 (BUF_SIZE - 1) /\
  (10000 = 0 ->
   uart_event_iteration {| ev_type := UART_DATA; ev_size := 10000 |}
     (RxAvail sample_burst) true sample_data w
   = Ok (sample_data, w)) /\
  (10000 <> 0 ->
   exists data' w' len more,
     uart_event_iteration {| ev_type := UART_DATA; ev_size := 10000 |}
       (RxAvail sample_burst) true sample_data w = Ok (data', w') /\
     trace w' = trace w ++ EUartRead (clamp_rx_size 10000) len :: more /\
     clamp_rx_size 10000 <= BUF_SIZE - 1 /\
     len <= BUF_SIZE - 1 /\
     (0 <= 10000 -> len <= clamp_rx_size 10000) /\
     (len <= 0 ->
      data' = sample_data /\
      w' = add_effects [EUartRead (clamp_rx_size 10000) len] w)).
Proof.
  intros w.
  assert (Hq : command_queue w = Some {| q_capacity := 5; q_items := [] |})
    by reflexivity.
  assert (Hdata : Z.of_nat (length sample_data) = BUF_SIZE) by reflexivity.
  split; [done|].
  exact (data_event_clamped_read w _ 10000 (RxAvail sample_burst)
           true sample_data Hq Hdata).
Defined.

(** C9: when the bytes read hold a NUL, all of them are echoed, but the
    entry sent to the command stage holds only the text [pre] before the
    first NUL.  When the first byte is the NUL the entry is the empty
    string, and the command stage logs it as unknown and leaves the pin
    alone. *)
Theorem interior_nul_truncates_command w q pre post data :
  command_queue w = Some q ->
  (length (q_items q) < q_capacity q)%nat ->
  Z.of_nat (length data) = BUF_SIZE ->
  nul_free pre ->
  Z.of_nat (length (pre ++ NUL :: post)) <= BUF_SIZE - 1 ->
  exists data' w',
    uart_event_iteration
      {| ev_type := UART_DATA;
         ev_size := Z.of_nat (length (pre ++ NUL :: post)) |}
      (RxAvail (pre ++ NUL :: post)) true data w = Ok (data', w') /\
    trace w'
    = trace w
      ++ [EUartRead (Z.of_nat (length (pre ++ NUL :: post)))
                    (Z.of_nat (length (pre ++ NUL :: post)));
          ELog LOG_INFO "Received: %s" (StrArg pre);
          EUartWrite (pre ++ NUL :: post);
          EQueueSend (fresh (dom (heap w))) true] /\
    heap w' !! fresh (dom (heap w)) = Some (pre ++ [NUL]) /\
    command_queue w'
    = Some {| q_capacity := q_capacity q;
              q_items := q_items q ++ [fresh (dom (heap w))] |} /\
    (pre = [] ->
     exists w'',
       process_command (fresh (dom (heap w))) w' = Ok (tt, w'') /\
       gpio_level w'' = gpio_level w' /\
       trace w''
       = trace w'
         ++ [ELog LOG_INFO "Processing command: %s" (StrArg []);
             ELog LOG_INFO "Unknown command: %s" (StrArg [])]).
Proof.
  intros Hq Hroom Hdata Hpre Hlen.
  set (input := pre ++ NUL :: post) in *.
  assert (Hne : input <> []) by (unfold input; by destruct pre).
  assert (Hsize : Z.of_nat (length input) <> 0).
  { destruct input; [done|]. cbn [length]. lia. }
  assert (Hlt : Z.of_nat (length input) < BUF_SIZE) by lia.
  pose proof (uart_data_echo w _ input true data Hsize) as Hecho.
  rewrite take_all_input in Hecho by done.
  specialize (Hecho Hne Hdata). cbv zeta in Hecho.
  rewrite clamp_rx_size_small in Hecho by done.
  set (w1 := add_effects _ w) in Hecho.
  pose proof (forward_sent w1 q input (drop (S (length input)) data) Hq Hroom)
    as Hfw. cbv zeta in Hfw.
  assert (Hcstr : cstr input = pre) by (by apply cstr_terminated).
  eexists _, _. split.
  { rewrite Hecho. erewrite bind_ok; [reflexivity|exact Hfw]. }
  cbn. unfold echo_effects. rewrite Hcstr.
  split; [by rewrite <- (assoc_L (++))|].
  split; [by rewrite lookup_insert_eq|].
  split; [done|].
  intros ->. eexists. split.
  { apply (process_command_spec _ _ []); cbn; [|constructor].
    by rewrite lookup_insert_eq. }
  by cbn.
Qed.

Lemma interior_nul_truncates_command_witness :
  let w := sample_world 1 [] in
  let post := String.list_byte_of_string "ON" ++ [LF] in
  (command_queue w = Some {| q_capacity := 5; q_items := [] |} /\
   (length (@nil positive) < 5)%nat /\
   Z.of_nat (length sample_data) = BUF_SIZE /\
   nul_free [] /\
   Z.of_nat (length ([] ++ NUL :: post)) <= BUF_SIZE - 1) /\
  exists data' w',
    uart_event_iteration
      {| ev_type := UART_DATA;
         ev_size := Z.of_nat (length ([] ++ NUL :: post)) |}
      (RxAvail ([] ++ NUL :: post)) true sample_data w = Ok (data', w') /\
    trace w'
    = trace w
      ++ [EUartRead (Z.of_nat (length ([] ++ NUL :: post)))
                    (Z.of_nat (length ([] ++ NUL :: post)));
          ELog LOG_INFO "Received: %s" (StrArg []);
          EUartWrite ([] ++ NUL :: post);
          EQueueSend (fresh (dom (heap w))) true] /\
    heap w' !! fresh (dom (heap w)) = Some ([] ++ [NUL]) /\
    command_queue w'
    = Some {| q_capacity := 5;
              q_items := [] ++ [fresh (dom (heap w))] |} /\
    (@nil byte = [] ->
     exists w'',
       process_command (fresh (dom (heap w))) w' = Ok (tt, w'') /\
       gpio_level w'' = gpio_level w' /\
       trace w''
       = trace w'
         ++ [ELog LOG_INFO "Processing command: %s" (StrArg []);
             ELog LOG_INFO "Unknown command: %s" (StrArg [])]).
Proof.
  intros w post.
  assert (Hq : command_queue w = Some {| q_capacity := 5; q_items := [] |})
    by reflexivity.
  assert (Hroom : (length (@nil positive) < 5)%nat) by (cbn; lia).
  assert (Hdata : Z.of_nat (length sample_data) = BUF_SIZE) by reflexivity.
  assert (Hpre : nul_free []) by constructor.
  assert (Hlen : Z.of_nat (length ([] ++ NUL :: post)) <= BUF_SIZE - 1)
    by (vm_compute; discriminate).
  split; [done|].
  exact (interior_nul_truncates_command w _ [] post sample_data
           Hq Hroom Hdata Hpre Hlen).
Defined.

(** * The system *)

Lemma boot_booted env level0 w :
  app_main env (power_on level0) = Ok (tt, w) ->
  booted env level0 (boot env level0).
Proof. intros H. exists w. unfold boot. by rewrite H. Qed.

Lemma boot_level env level0 w :
  app_main env (power_on level0) = Ok (tt, w) ->
  gpio_level w = 0 /\
  Forall (fun e => is_queue_receive e = false) (trace w).
Proof.
  destruct env as [[] [] [] [] [] [] []]; cbn; intros [= <-]; cbn.
  all: split; [done|]; by repeat constructor.
Qed.

Lemma reachable_step t s s' : reachable s -> step t s s' -> reachable s'.
Proof.
  intros (env & level0 & s0 & Hboot & Hrun) Hstep.
  exists env, level0, s0. split; [done|].
  eapply rtc_r; [done|]. by exists t.
Qed.

Lemma reachable_run_uart_start data s :
  reachable s -> UartEventTask ∈ tasks (sys_world s) ->
  uart_task s = UartNotStarted -> Z.of_nat (length data) = BUF_SIZE ->
  reachable (run_uart_start data s) /\
  tasks (sys_world (run_uart_start data s)) = tasks (sys_world s) /\
  uart_task (run_uart_start data s) = UartLooping data.
Proof.
  intros Hr Hin Hst Hdata. split; [|done].
  eapply reachable_step; [done|].
  eapply (step_uart_start s (Some data)); try done.
  by intros ? [= <-].
Qed.

Lemma reachable_run_uart_event event rx alloc_ok s :
  reachable s -> UartEventTask ∈ tasks (sys_world s) ->
  (exists data, uart_task s = UartLooping data) ->
  reachable (run_uart_event event rx alloc_ok s) /\
  tasks (sys_world (run_uart_event event rx alloc_ok s)) = tasks (sys_world s) /\
  (exists data, uart_task (run_uart_event event rx alloc_ok s)
                = UartLooping data).
Proof.
  intros Hr Hin [data Hst].
  pose proof (reachable_inv s Hr) as Hinv.
  destruct (inv_tasks _ Hinv) as [q Hq].
  { intros Hnil. rewrite Hnil in Hin. by apply elem_of_nil in Hin. }
  destruct (uart_event_iteration_runs event rx alloc_ok data (sys_world s) q)
    as (data' & w' & Hrun & _ & Hch); [by apply Hinv|done|].
  unfold run_uart_event. rewrite Hst, Hrun. cbn.
  split; [|split; [by apply echo_change_summary|by eexists]].
  eapply reachable_step; [done|]. by eapply step_uart_event.
Qed.

Lemma reachable_iter_uart_event n event rx alloc_ok s :
  reachable s -> UartEventTask ∈ tasks (sys_world s) ->
  (exists data, uart_task s = UartLooping data) ->
  reachable (Nat.iter n (run_uart_event event rx alloc_ok) s) /\
  tasks (sys_world (Nat.iter n (run_uart_event event rx alloc_ok) s))
  = tasks (sys_world s) /\
  (exists data, uart_task (Nat.iter n (run_uart_event event rx alloc_ok) s)
                = UartLooping data).
Proof.
  intros Hr Hin Hst. induction n as [|n (IHr & IHt & IHd)]; [done|].
  cbn [Nat.iter].
  destruct (reachable_run_uart_event event rx alloc_ok _ IHr) as (? & Ht & ?);
    [by rewrite IHt|done|].
  split; [done|]. split; [exact (eq_trans Ht IHt)|done].
Qed.

Lemma reachable_boot env level0 w :
  app_main env (power_on level0) = Ok (tt, w) -> reachable (boot env level0).
Proof.
  intros H. exists env, level0, (boot env level0).
  split; [by eapply boot_booted|done].
Qed.

Lemma sample_full_reachable : reachable sample_full.
Proof.
  unfold sample_full.
  assert (Hboot : reachable (boot all_ok 1)) by (by eapply reachable_boot).
  destruct (reachable_run_uart_start sample_data (boot all_ok 1) Hboot)
    as (Hr & Ht & Hst); try done.
  { cbn. apply list_elem_of_here. }
  apply reachable_iter_uart_event; [done| |by eexists].
  rewrite Ht. cbn. apply list_elem_of_here.
Qed.

(** C5: the relay queue is created with capacity 5 and never holds more
    than 5 entries.  When it is full and a line is received, the enqueue
    fails; the turn then ends with the heap as it was before the copy was
    made (the live blocks are again exactly the queued entries, so the copy
    is released and not leaked), the failure is logged, and the echo write
    of the bytes read has taken place before. *)
Theorem relay_queue_bounded s q :
  reachable s -> command_queue (sys_world s) = Some q ->
  q_capacity q = 5%nat /\
  (length (q_items q) <= 5)%nat /\
  (forall data size bytes,
     uart_task s = UartLooping data ->
     size <> 0 ->
     take (Z.to_nat (clamp_rx_size size)) bytes <> [] ->
     length (q_items q) = 5%nat ->
     exists data' w',
       uart_event_iteration {| ev_type := UART_DATA; ev_size := size |}
         (RxAvail bytes) true data (sys_world s) = Ok (data', w') /\
       heap w' = heap (sys_world s) /\
       dom (heap w') = list_to_set (q_items q) /\
       command_queue w' = Some q /\
       trace w'
       = trace (sys_world s)
         ++ [EUartRead (clamp_rx_size size)
               (Z.of_nat
                  (length (take (Z.to_nat (clamp_rx_size size)) bytes)));
             ELog LOG_INFO "Received: %s"
               (StrArg (cstr (take (Z.to_nat (clamp_rx_size size)) bytes)));
             EUartWrite (take (Z.to_nat (clamp_rx_size size)) bytes);
             EQueueSend (fresh (dom (heap (sys_world s)))) false;
             ELog LOG_ERROR "Failed to send command to queue" NoArg]).
Proof.
  intros Hr Hq. pose proof (reachable_inv s Hr) as Hinv.
  destruct (inv_capacity _ Hinv q Hq) as [Hcap Hlen].
  split; [done|]. split; [done|].
  intros data size bytes Hst Hsize Hgot Hfull.
  assert (Hdata : Z.of_nat (length data) = BUF_SIZE) by by apply Hinv.
  pose proof (uart_data_echo (sys_world s) size bytes true data
                Hsize Hgot Hdata) as Hecho. cbv zeta in Hecho.
  set (got := take (Z.to_nat (clamp_rx_size size)) bytes) in *.
  set (w1 := add_effects _ (sys_world s)) in Hecho.
  pose proof (forward_dropped w1 q got (drop (S (length got)) data) Hq)
    as Hfw. cbv zeta in Hfw.
  eexists _, _. split.
  { rewrite Hecho. erewrite bind_ok; [reflexivity|]. apply Hfw. lia. }
  cbn. split; [done|]. split; [by apply Hinv|]. split; [done|].
  unfold echo_effects. by rewrite <- (assoc_L (++)).
Qed.

Lemma relay_queue_bounded_witness :
  let q := {| q_capacity := 5;
              q_items := [1; 2; 3; 4; 5]%positive |} in
  (reachable sample_full /\
   command_queue (sys_world sample_full) = Some q) /\
  (uart_task sample_full = UartLooping (uart_data sample_full) /\
   take (Z.to_nat (clamp_rx_size 3)) sample_line <> [] /\
   length (q_items q) = 5%nat) /\
  q_capacity q = 5%nat /\
  (length (q_items q) <= 5)%nat /\
  (forall data size bytes,
     uart_task sample_full = UartLooping data ->
     size <> 0 ->
     take (Z.to_nat (clamp_rx_size size)) bytes <> [] ->
     length (q_items q) = 5%nat ->
     exists data' w',
       uart_event_iteration {| ev_type := UART_DATA; ev_size := size |}
         (RxAvail bytes) true data (sys_world sample_full) = Ok (data', w') /\
       heap w' = heap (sys_world sample_full) /\
       dom (heap w') = list_to_set (q_items q) /\
       command_queue w' = Some q /\
       trace w'
       = trace (sys_world sample_full)
         ++ [EUartRead (clamp_rx_size size)
               (Z.of_nat
                  (length (take (Z.to_nat (clamp_rx_size size)) bytes)));
             ELog LOG_INFO "Received: %s"
               (StrArg (cstr (take (Z.to_nat (clamp_rx_size size)) bytes)));
             EUartWrite (take (Z.to_nat (clamp_rx_size size)) bytes);
             EQueueSend (fresh (dom (heap (sys_world sample_full)))) false;
             ELog LOG_ERROR "Failed to send command to queue" NoArg]).
Proof.
  intros q.
  assert (Hq : command_queue (sys_world sample_full) = Some q)
    by (vm_compute; reflexivity).
  split; [split; [exact sample_full_reachable|exact Hq]|].
  split; [split; [vm_compute; reflexivity|split; [discriminate|reflexivity]]|].
  exact (relay_queue_bounded sample_full q sample_full_reachable Hq).
Defined.

Lemma run_level s0 s :
  pipeline_inv s0 -> rtc any_step s0 s ->
  pipeline_inv s /\
  (gpio_level (sys_world s) = gpio_level (sys_world s0) \/
   exists es, trace (sys_world s) = trace (sys_world s0) ++ es /\
              Exists (fun e => is_queue_receive e = true) es).
Proof.
  intros Hinv Hrun.
  eapply (rtc_ind_r (fun s =>
            pipeline_inv s /\
            exists es, trace (sys_world s) = trace (sys_world s0) ++ es /\
              (gpio_level (sys_world s) = gpio_level (sys_world s0) \/
               Exists (fun e => is_queue_receive e = true) es)))
    in Hrun as (? & es & ? & [?|?]); eauto.
  - split; [done|]. exists []. rewrite app_nil_r. by split; [|left].
  - clear. intros s1 s2 _ [t Hstep] (Hinv1 & es & Htr & Hlev).
    destruct (step_summary t s1 s2 Hinv1 Hstep)
      as (Hinv2 & _ & es' & Htr' & Hlev').
    split; [done|]. exists (es ++ es').
    split; [by rewrite Htr', Htr, (assoc_L (++))|].
    destruct Hlev as [Hsame|Hrecv].
    + destruct Hlev' as [Hsame'|[_ Hrecv']].
      * left. congruence.
      * right. apply Exists_app. by right.
    + right. apply Exists_app. by left.
Qed.

(** C7: when [app_main] has returned the output state is 0, and it stays 0
    for as long as the command stage has taken no entry from the relay
    queue; a turn of the receive/echo task never changes it. *)
Theorem output_off_until_command env level0 s0 s :
  booted env level0 s0 -> rtc any_step s0 s ->
  gpio_level (sys_world s0) = 0 /\
  (Forall (fun e => is_queue_receive e = false) (trace (sys_world s)) ->
   gpio_level (sys_world s) = 0) /\
  (forall s', step UartEventTask s s' ->
              gpio_level (sys_world s') = gpio_level (sys_world s)).
Proof.
  intros (w & Hboot & ->) Hrun. cbn [sys_world].
  destruct (boot_level env level0 w Hboot) as [Hzero Hquiet].
  pose proof (boot_inv env level0 w Hboot) as Hinv0.
  destruct (run_level _ s Hinv0 Hrun) as [Hinv Hlev]. cbn in Hlev.
  split; [done|]. split.
  - intros Hnone. destruct Hlev as [->|(es & Htr & Hrecv)]; [done|].
    rewrite Htr in Hnone. apply Forall_app in Hnone as [_ Hnone].
    apply Exists_exists in Hrecv as (e & Hin & He).
    rewrite Forall_forall in Hnone. specialize (Hnone e Hin). congruence.
  - intros s' Hstep.
    by destruct (step_summary _ s s' Hinv Hstep)
      as (_ & _ & es & _ & [?|[? _]]).
Qed.

Lemma output_off_until_command_witness :
  (booted all_ok 1 (boot all_ok 1) /\
   rtc any_step (boot all_ok 1) (run_uart_start sample_data (boot all_ok 1))) /\
  gpio_level (sys_world (boot all_ok 1)) = 0 /\
  (Forall (fun e => is_queue_receive e = false)
     (trace (sys_world (run_uart_start sample_data (boot all_ok 1)))) ->
   gpio_level (sys_world (run_uart_start sample_data (boot all_ok 1))) = 0) /\
  (forall s', step UartEventTask
                (run_uart_start sample_data (boot all_ok 1)) s' ->
              gpio_level (sys_world s')
              = gpio_level
                  (sys_world (run_uart_start sample_data (boot all_ok 1)))).
Proof.
  assert (Hboot : booted all_ok 1 (boot all_ok 1))
    by (eapply boot_booted; reflexivity).
  assert (Hrun : rtc any_step (boot all_ok 1)
                   (run_uart_start sample_data (boot all_ok 1))).
  { apply rtc_once. exists UartEventTask.
    apply (step_uart_start (boot all_ok 1) (Some sample_data));
      [apply list_elem_of_here|reflexivity| |reflexivity].
    intros data [= <-]. reflexivity. }
  split; [done|].
  exact (output_off_until_command all_ok 1 _ _ Hboot Hrun).
Defined.

(** C8: when the creation of the relay queue fails (the calls before it
    having succeeded), [app_main] logs the failure and returns with no
    task created; from there no task ever takes a step. *)
Theorem queue_creation_failure_stops_startup env level0 :
  gpio_config_ok env = true -> uart_param_config_ok env = true ->
  uart_set_pin_ok env = true -> uart_driver_install_ok env = true ->
  queue_create_ok env = false ->
  exists w,
    app_main env (power_on level0) = Ok (tt, w) /\
    tasks w = [] /\
    command_queue w = None /\
    trace w = [ELog LOG_INFO "Starting UART Echo Example" NoArg;
               EGpioSetLevel 0;
               ELog LOG_ERROR "Failed to create command queue" NoArg] /\
    (forall t s', ~ step t {| sys_world := w; uart_task := UartNotStarted |} s') /\
    (forall s, rtc any_step {| sys_world := w; uart_task := UartNotStarted |} s ->
               s = {| sys_world := w; uart_task := UartNotStarted |}).
Proof.
  destruct env as [g p pin d qc t1 t2]. cbn. intros -> -> -> -> ->.
  eexists. split; [reflexivity|]. cbn.
  split; [done|]. split; [done|]. split; [done|].
  assert (Hstuck : forall t s',
    ~ step t {| sys_world :=
                  {| gpio_level := 0; heap := ∅; command_queue := None;
                     tasks := [];
                     trace := [ELog LOG_INFO "Starting UART Echo Example" NoArg;
                               EGpioSetLevel 0;
                               ELog LOG_ERROR "Failed to create command queue"
                                 NoArg] |};
                uart_task := UartNotStarted |} s').
  { intros t s' Hstep. inversion Hstep as [? ? ? ? Hin|? ? ? ? ? ? ? Hin|? ? Hin];
      subst; cbn in Hin; by apply elem_of_nil in Hin. }
  split; [done|].
  intros s Hrun. inversion Hrun as [|? s1 ? [t Hstep] _]; subst; [done|].
  by apply Hstuck in Hstep.
Qed.

Lemma queue_creation_failure_stops_startup_witness :
  (gpio_config_ok no_queue = true /\ uart_param_config_ok no_queue = true /\
   uart_set_pin_ok no_queue = true /\ uart_driver_install_ok no_queue = true /\
   queue_create_ok no_queue = false) /\
  exists w,
    app_main no_queue (power_on 1) = Ok (tt, w) /\
    tasks w = [] /\
    command_queue w = None /\
    trace w = [ELog LOG_INFO "Starting UART Echo Example" NoArg;
               EGpioSetLevel 0;
               ELog LOG_ERROR "Failed to create command queue" NoArg] /\
    (forall t s', ~ step t {| sys_world := w; uart_task := UartNotStarted |} s') /\
    (forall s, rtc any_step {| sys_world := w; uart_task := UartNotStarted |} s ->
               s = {| sys_world := w; uart_task := UartNotStarted |}).
Proof.
  split; [by repeat split|].
  exact (queue_creation_failure_stops_startup no_queue 1
           eq_refl eq_refl eq_refl eq_refl eq_refl).
Defined.

Lemma command_iteration_runs s :
  pipeline_inv s -> CommandProcessorTask ∈ tasks (sys_world s) ->
  exists w', command_processor_iteration (sys_world s) = Ok (tt, w').
Proof.
  intros Hinv Hin. destruct (inv_tasks _ Hinv) as [q Hq].
  { intros Hnil. rewrite Hnil in Hin. by apply elem_of_nil in Hin. }
  destruct (q_items q) as [|cmd rest] eqn:Hitems.
  - eexists. by eapply command_iteration_idle.
  - assert (Hcmd : is_Some (heap (sys_world s) !! cmd)).
    { apply elem_of_dom. rewrite (inv_owned _ Hinv q Hq), Hitems.
      apply elem_of_list_to_set. by left. }
    destruct Hcmd as [buf Hbuf].
    destruct (inv_strings _ Hinv cmd buf Hbuf) as (text & -> & Hnf).
    eexists. by eapply command_iteration_spec.
Qed.

Lemma trim_loop_terminated text rest fuel :
  nul_free text -> (length text < fuel)%nat ->
  trim_loop fuel (text ++ NUL :: rest) (Z.of_nat (length text) - 1)
  = trim (text ++ NUL :: rest).
Proof.
  intros Hnf Hfuel. rewrite trim_terminated by done.
  destruct (strip_eol_split text) as (suffix & Hsplit & Hsuf).
  pose proof (strip_eol_no_eol_end text) as Hend.
  revert Hsplit Hend. generalize (strip_eol text). intros kept -> Hend.
  rewrite length_app in Hfuel. rewrite length_app.
  replace (length kept + length suffix - length kept)%nat
    with (length suffix) by lia.
  rewrite <- (assoc_L (++)), <- length_app.
  apply trim_loop_run; [done|done|lia].
Qed.

(** C10: in every state the system can reach, a turn of either task runs
    to its end without an access outside a buffer.  In particular the
    number of bytes read is below BUF_SIZE, so the store of the terminator
    at index [len] lands inside the receive buffer; and the trim loop ends
    within [strlen + 1] iterations (more budget changes nothing), writes
    only inside the entry, which keeps its size, and leaves the empty
    string as it is. *)
Theorem buffer_accesses_in_bounds s :
  reachable s ->
  (forall event rx alloc_ok data,
     UartEventTask ∈ tasks (sys_world s) ->
     uart_task s = UartLooping data ->
     exists data' w',
       uart_event_iteration event rx alloc_ok data (sys_world s)
       = Ok (data', w') /\
       Z.of_nat (length data') = BUF_SIZE) /\
  (CommandProcessorTask ∈ tasks (sys_world s) ->
   exists w', command_processor_iteration (sys_world s) = Ok (tt, w')) /\
  (forall size bytes data,
     Z.of_nat (length data) = BUF_SIZE ->
     0 <= Z.of_nat (length (take (Z.to_nat (clamp_rx_size size)) bytes))
       < BUF_SIZE /\
     store (take (Z.to_nat (clamp_rx_size size)) bytes
              ++ drop (length (take (Z.to_nat (clamp_rx_size size)) bytes))
                   data)
           (Z.of_nat (length (take (Z.to_nat (clamp_rx_size size)) bytes)))
           NUL
     = Ok (take (Z.to_nat (clamp_rx_size size)) bytes
             ++ NUL
             :: drop (S (length (take (Z.to_nat (clamp_rx_size size)) bytes)))
                  data)) /\
  (forall text rest fuel,
     nul_free text -> (length text < fuel)%nat ->
     exists buf,
       trim_loop fuel (text ++ NUL :: rest) (Z.of_nat (length text) - 1)
       = Ok buf /\
       trim (text ++ NUL :: rest) = Ok buf /\
       length buf = length (text ++ NUL :: rest)) /\
  trim [NUL] = Ok [NUL].
Proof.
  intros Hr. pose proof (reachable_inv s Hr) as Hinv.
  split; [|split; [|split; [|split]]].
  - intros event rx alloc_ok data Hin Hst.
    destruct (inv_tasks _ Hinv) as [q Hq].
    { intros Hnil. rewrite Hnil in Hin. by apply elem_of_nil in Hin. }
    destruct (uart_event_iteration_runs event rx alloc_ok data
                (sys_world s) q) as (data' & w' & Hrun & Hlen & _);
      [by apply Hinv|done|]. by exists data', w'.
  - by apply command_iteration_runs.
  - intros size bytes data Hdata.
    pose proof (got_fits size bytes data Hdata) as Hfit.
    split; [lia|]. by apply terminate_received.
  - intros text rest fuel Hnf Hfuel.
    rewrite trim_loop_terminated, trim_terminated by done.
    eexists. split; [done|]. split; [done|].
    destruct (strip_eol_split text) as (suffix & Hsplit & _).
    pose proof (f_equal length Hsplit) as Hlen. rewrite length_app in Hlen.
    rewrite !length_app, length_replicate. cbn [length]. lia.
  - reflexivity.
Qed.

Lemma buffer_accesses_in_bounds_witness :
  reachable sample_full /\
  (forall event rx alloc_ok data,
     UartEventTask ∈ tasks (sys_world sample_full) ->
     uart_task sample_full = UartLooping data ->
     exists data' w',
       uart_event_iteration event rx alloc_ok data (sys_world sample_full)
       = Ok (data', w') /\
       Z.of_nat (length data') = BUF_SIZE) /\
  (CommandProcessorTask ∈ tasks (sys_world sample_full) ->
   exists w', command_processor_iteration (sys_world sample_full) = Ok (tt, w')) /\
  (forall size bytes data,
     Z.of_nat (length data) = BUF_SIZE ->
     0 <= Z.of_nat (length (take (Z.to_nat (clamp_rx_size size)) bytes))
       < BUF_SIZE /\
     store (take (Z.to_nat (clamp_rx_size size)) bytes
              ++ drop (length (take (Z.to_nat (clamp_rx_size size)) bytes))
                   data)
           (Z.of_nat (length (take (Z.to_nat (clamp_rx_size size)) bytes)))
           NUL
     = Ok (take (Z.to_nat (clamp_rx_size size)) bytes
             ++ NUL
             :: drop (S (length (take (Z.to_nat (clamp_rx_size size)) bytes)))
                  data)) /\
  (forall text rest fuel,
     nul_free text -> (length text < fuel)%nat ->
     exists buf,
       trim_loop fuel (text ++ NUL :: rest) (Z.of_nat (length text) - 1)
       = Ok buf /\
       trim (text ++ NUL :: rest) = Ok buf /\
       length buf = length (text ++ NUL :: rest)) /\
  trim [NUL] = Ok [NUL].
Proof.
  split; [exact sample_full_reachable|].
  exact (buffer_accesses_in_bounds sample_full sample_full_reachable).
Defined.

(** * Scenarios *)

Example trim_on_crlf :
  trim (String.list_byte_of_string "ON" ++ [CR; LF; NUL])
  = Ok (String.list_byte_of_string "ON" ++ [NUL; NUL; NUL]).
Proof. reflexivity. Qed.

Example trim_keeps_interior_eol :
  trim [x20; x61; LF; x62; CR; LF; NUL] = Ok [x20; x61; LF; x62; NUL; NUL; NUL].
Proof. reflexivity. Qed.

Example trim_only_eol : trim [CR; LF; NUL] = Ok [NUL; NUL; NUL].
Proof. reflexivity. Qed.

Example trim_without_fuel : trim_loop 2 [CR; LF; NUL] 1 = OutOfFuel.
Proof. reflexivity. Qed.

Example strcmp_on_lowercase :
  strcmp (literal "on") (literal "ON") = Ok 32.
Proof. reflexivity. Qed.

(** "hello\r\n": echoed as received, trimmed to "hello", not a command. *)
Example scenario_hello :
  let s := receive_line (String.list_byte_of_string "hello" ++ [CR; LF])
             started in
  calls_since_start s
  = [EUartRead 7 7;
     ELog LOG_INFO "Received: %s"
       (StrArg (String.list_byte_of_string "hello" ++ [CR; LF]));
     EUartWrite (String.list_byte_of_string "hello" ++ [CR; LF]);
     EQueueSend 1 true;
     EQueueReceive 1;
     ELog LOG_INFO "Processing command: %s"
       (StrArg (String.list_byte_of_string "hello"));
     ELog LOG_INFO "Unknown command: %s"
       (StrArg (String.list_byte_of_string "hello"))] /\
  gpio_level (sys_world s) = 0 /\
  heap (sys_world s) = ∅.
Proof. vm_compute. by repeat split. Qed.

(** "ON\n" turns the output on; "OFF\r\n" right after turns it off. *)
Example scenario_on_off :
  let s1 := receive_line (String.list_byte_of_string "ON" ++ [LF]) started in
  let s2 := receive_line (String.list_byte_of_string "OFF" ++ [CR; LF]) s1 in
  gpio_level (sys_world s1) = 1 /\ gpio_level (sys_world s2) = 0 /\
  uart_tx (calls_since_start s2)
  = String.list_byte_of_string "ON" ++ [LF]
    ++ String.list_byte_of_string "OFF" ++ [CR; LF].
Proof. vm_compute. by repeat split. Qed.

(** Lower case, or a blank before the line ending, is not a command. *)
Example scenario_no_broader_match :
  gpio_level (sys_world (receive_line (String.list_byte_of_string "on" ++ [LF])
                           started)) = 0 /\
  gpio_level (sys_world (receive_line (String.list_byte_of_string "ON " ++ [LF])
                           started)) = 0.
Proof. vm_compute. by split. Qed.

(** A burst of 10,000 bytes: 1023 of them are read, echoed and forwarded
    as one entry, which is not a command. *)
Example scenario_burst :
  let s := run_command
             (run_uart_event {| ev_type := UART_DATA; ev_size := 10000 |}
                (RxAvail sample_burst) true started) in
  uart_tx (calls_since_start s) = replicate 1023 x41 /\
  gpio_level (sys_world s) = 0 /\
  last (calls_since_start s)
  = Some (ELog LOG_INFO "Unknown command: %s" (StrArg (replicate 1023 x41))).
Proof. vm_compute. by repeat split. Qed.

(** A FIFO overflow: the input is flushed and the event queue reset;
    nothing is echoed or forwarded. *)
Example scenario_overflow :
  calls_since_start
    (run_uart_event {| ev_type := UART_FIFO_OVF; ev_size := 0 |}
       (RxAvail sample_line) true started)
  = [ELog LOG_WARN "UART FIFO overflow" NoArg; EUartFlushInput;
     EEventQueueReset].
Proof. reflexivity. Qed.

(** With the queue full the sixth line is echoed and then dropped. *)
Example scenario_full_queue :
  let s := run_uart_event {| ev_type := UART_DATA; ev_size := 3 |}
             (RxAvail sample_line) true sample_full in
  command_queue (sys_world s) = command_queue (sys_world sample_full) /\
  heap (sys_world s) = heap (sys_world sample_full) /\
  drop (length (trace (sys_world sample_full))) (trace (sys_world s))
  = [EUartRead 3 3; ELog LOG_INFO "Received: %s" (StrArg sample_line);
     EUartWrite sample_line; EQueueSend 6 false;
     ELog LOG_ERROR "Failed to send command to queue" NoArg].
Proof. vm_compute. by repeat split. Qed.

(** * Beyond single turns *)

(** ** One turn of the receive/echo stage, whatever the event *)

Lemma received_nonempty got data :
  got <> [] -> received got data = got ++ NUL :: drop (S (length got)) data.
Proof. by destruct got. Qed.

Lemma uart_tx_add_effects es w :
  uart_tx (trace (add_effects es w)) = uart_tx (trace w) ++ uart_tx es.
Proof. cbn. apply uart_tx_app. Qed.

Lemma uart_turn_world event rx alloc_ok w q :
  command_queue w = Some q ->
  exists w',
    (forall data, Z.of_nat (length data) = BUF_SIZE ->
       uart_event_iteration event rx alloc_ok data w
       = Ok (received (bytes_read event rx) data, w')) /\
    Z.of_nat (length (bytes_read event rx)) <= BUF_SIZE - 1 /\
    uart_tx (trace w') = uart_tx (trace w) ++ bytes_read event rx /\
    gpio_level w' = gpio_level w /\
    tasks w' = tasks w /\
    if decide (bytes_read event rx <> [] /\ alloc_ok = true /\
               (length (q_items q) < q_capacity q)%nat)
    then heap w'
         = <[fresh (dom (heap w)) := cstr (bytes_read event rx) ++ [NUL]]>
             (heap w) /\
         command_queue w'
         = Some {| q_capacity := q_capacity q;
                   q_items := q_items q ++ [fresh (dom (heap w))] |}
    else heap w' = heap w /\ command_queue w' = command_queue w.
Proof.
  intros Hq. destruct event as [ty size]. destruct ty.
  2-6: eexists; (split; [intros data _; reflexivity|]).
  2-6: rewrite !add_trace_effects, ?add_effects_add_effects.
  2-6: rewrite uart_tx_add_effects, decide_False by (by intros [? _]).
  2-6: cbn; rewrite app_nil_r; unfold BUF_SIZE; by repeat split.
  unfold bytes_read. cbn [ev_type ev_size].
  destruct (decide (size = 0)) as [->|Hsize].
  { exists w. split; [by intros data _|].
    rewrite decide_False by (by intros [? _]).
    cbn. rewrite app_nil_r. unfold BUF_SIZE. by repeat split. }
  destruct rx as [|bytes].
  { eexists. split; [intros data _; by apply uart_data_read_error|].
    rewrite uart_tx_add_effects, decide_False by (by intros [? _]).
    cbn. rewrite app_nil_r. unfold BUF_SIZE. by repeat split. }
  destruct (decide (take (Z.to_nat (clamp_rx_size size)) bytes = []))
    as [Hgot|Hgot].
  { eexists. split.
    { intros data _. rewrite Hgot. by apply uart_data_read_nothing. }
    rewrite Hgot.
    rewrite uart_tx_add_effects, decide_False by (by intros [? _]).
    cbn. rewrite app_nil_r. unfold BUF_SIZE. by repeat split. }
  assert (Hlen : Z.of_nat (length (take (Z.to_nat (clamp_rx_size size)) bytes))
                 <= BUF_SIZE - 1).
  { pose proof (clamp_rx_size_le size). rewrite length_take.
    unfold BUF_SIZE in *. lia. }
  pose proof (fun data => uart_data_echo w size bytes alloc_ok data Hsize Hgot)
    as Hecho. cbv zeta in Hecho.
  revert Hgot Hlen Hecho.
  generalize (take (Z.to_nat (clamp_rx_size size)) bytes).
  intros got Hgot Hlen Hecho.
  set (w1 := add_effects (echo_effects (clamp_rx_size size) got) w) in *.
  assert (Htx1 : uart_tx (trace w1) = uart_tx (trace w) ++ got).
  { unfold w1. rewrite uart_tx_add_effects. cbn. by rewrite app_nil_r. }
  assert (Hq1 : command_queue w1 = Some q) by done.
  destruct alloc_ok.
  - destruct (decide (length (q_items q) < q_capacity q)%nat) as [Hroom|Hfull].
    + eexists. split.
      { intros data Hdata. rewrite Hecho, received_nonempty by done.
        erewrite bind_ok; [reflexivity|]. by eapply forward_sent. }
      rewrite decide_True by done. cbn [trace gpio_level tasks heap command_queue].
      split; [done|]. split; [|done].
      rewrite uart_tx_app, Htx1. cbn. by rewrite app_nil_r.
    + eexists. split.
      { intros data Hdata. rewrite Hecho, received_nonempty by done.
        erewrite bind_ok; [reflexivity|]. by eapply forward_dropped. }
      rewrite decide_False by (intros (_ & _ & ?); done).
      rewrite uart_tx_add_effects, Htx1. cbn. rewrite app_nil_r.
      by repeat split.
  - eexists. split.
    { intros data Hdata. rewrite Hecho, received_nonempty by done.
      erewrite bind_ok; [reflexivity|]. by apply forward_alloc_failed. }
    rewrite decide_False by (intros (_ & ? & _); done).
    rewrite uart_tx_add_effects, Htx1. cbn. rewrite app_nil_r.
    by repeat split.
Qed.

(** ** The queue as a list of texts *)

Lemma task_has_queue t s :
  pipeline_inv s -> t ∈ tasks (sys_world s) ->
  exists q, command_queue (sys_world s) = Some q.
Proof.
  intros Hinv Hin. apply (inv_tasks _ Hinv).
  intros Hnil. rewrite Hnil in Hin. by apply elem_of_nil in Hin.
Qed.

Lemma pending_length w q :
  command_queue w = Some q -> length (pending w) = length (q_items q).
Proof. intros Hq. unfold pending. by rewrite Hq, length_fmap. Qed.

Lemma pending_pushed w w' q (text : list byte) :
  command_queue w = Some q ->
  dom (heap w) = list_to_set (q_items q) ->
  nul_free text ->
  heap w' = <[fresh (dom (heap w)) := text ++ [NUL]]> (heap w) ->
  command_queue w'
  = Some {| q_capacity := q_capacity q;
            q_items := q_items q ++ [fresh (dom (heap w))] |} ->
  pending w' = pending w ++ [text].
Proof.
  intros Hq Hdom Hnf Hh Hq'. unfold pending. rewrite Hq, Hq', Hh. cbn.
  rewrite fmap_app. cbn. rewrite lookup_insert_eq. cbn.
  rewrite (cstr_terminated text []) by done. f_equal.
  apply list_fmap_ext. intros i p Hp.
  rewrite lookup_insert_ne; [done|]. intros <-.
  apply (is_fresh (dom (heap w))). rewrite Hdom at 2.
  apply elem_of_list_to_set. by eapply list_elem_of_lookup_2.
Qed.

Lemma pending_popped w w' q cmd rest :
  command_queue w = Some q -> q_items q = cmd :: rest -> NoDup (q_items q) ->
  heap w' = delete cmd (heap w) ->
  command_queue w' = Some {| q_capacity := q_capacity q; q_items := rest |} ->
  pending w' = tail (pending w).
Proof.
  intros Hq Hitems Hnd Hh Hq'. unfold pending. rewrite Hq, Hq', Hh, Hitems. cbn.
  rewrite Hitems in Hnd. apply NoDup_cons in Hnd as [Hnotin _].
  apply list_fmap_ext. intros i p Hp.
  rewrite lookup_delete_ne; [done|]. intros <-.
  apply Hnotin. by eapply list_elem_of_lookup_2.
Qed.

(** What a turn of the receive/echo task does to the views. *)
Lemma run_uart_event_view event rx alloc_ok s data :
  pipeline_inv s -> UartEventTask ∈ tasks (sys_world s) ->
  uart_task s = UartLooping data ->
  uart_task (run_uart_event event rx alloc_ok s)
  = UartLooping (received (bytes_read event rx) data) /\
  uart_tx (trace (sys_world (run_uart_event event rx alloc_ok s)))
  = uart_tx (trace (sys_world s)) ++ bytes_read event rx /\
  gpio_level (sys_world (run_uart_event event rx alloc_ok s))
  = gpio_level (sys_world s) /\
  pending (sys_world (run_uart_event event rx alloc_ok s))
  = pending (sys_world s)
    ++ (if decide (bytes_read event rx <> [] /\ alloc_ok = true /\
                   (length (pending (sys_world s)) < 5)%nat)
        then [cstr (bytes_read event rx)] else []).
Proof.
  intros Hinv Hin Hst.
  destruct (task_has_queue _ s Hinv Hin) as [q Hq].
  destruct (uart_turn_world event rx alloc_ok (sys_world s) q Hq)
    as (w' & Hrun & _ & Htx & Hg & _ & Hheap).
  assert (Hdata : Z.of_nat (length data) = BUF_SIZE) by by apply Hinv.
  unfold run_uart_event. rewrite Hst, (Hrun data Hdata). cbn.
  split; [done|]. split; [done|]. split; [done|].
  rewrite (pending_length _ q Hq).
  destruct (inv_capacity _ Hinv q Hq) as [Hcap _]. rewrite <- Hcap.
  case_decide as Hacc.
  - destruct Hheap as [Hh Hq'].
    eapply pending_pushed; [done|by apply Hinv|apply cstr_nul_free|done|done].
  - destruct Hheap as [Hh Hq']. rewrite app_nil_r.
    unfold pending. by rewrite Hh, Hq'.
Qed.

Lemma command_effects_silent kept : uart_tx (command_effects kept) = [].
Proof. unfold command_effects. by repeat case_decide. Qed.

(** What a turn of the command task does to the views. *)
Lemma run_command_view s :
  pipeline_inv s -> CommandProcessorTask ∈ tasks (sys_world s) ->
  uart_task (run_command s) = uart_task s /\
  tasks (sys_world (run_command s)) = tasks (sys_world s) /\
  uart_tx (trace (sys_world (run_command s))) = uart_tx (trace (sys_world s)) /\
  pending (sys_world (run_command s)) = tail (pending (sys_world s)) /\
  gpio_level (sys_world (run_command s))
  = match pending (sys_world s) with
    | [] => gpio_level (sys_world s)
    | text :: _ => command_level (strip_eol text) (gpio_level (sys_world s))
    end.
Proof.
  intros Hinv Hin. destruct (task_has_queue _ s Hinv Hin) as [q Hq].
  unfold run_command.
  destruct (q_items q) as [|cmd rest] eqn:Hitems.
  - rewrite (command_iteration_idle _ q Hq Hitems). cbn.
    unfold pending. rewrite Hq, Hitems. by cbn.
  - assert (Hcmd : is_Some (heap (sys_world s) !! cmd)).
    { apply elem_of_dom. rewrite (inv_owned _ Hinv q Hq), Hitems.
      apply elem_of_list_to_set. by left. }
    destruct Hcmd as [buf Hbuf].
    destruct (inv_strings _ Hinv cmd buf Hbuf) as (text & -> & Hnf).
    rewrite (command_iteration_spec _ q cmd rest text Hq Hitems Hbuf Hnf).
    cbn [sys_world uart_task tasks trace gpio_level].
    split; [done|]. split; [done|]. split.
    { rewrite uart_tx_app. cbn [uart_tx]. rewrite command_effects_silent.
      by rewrite app_nil_r. }
    split.
    { eapply pending_popped; [done|done|by apply Hinv|done|done]. }
    unfold pending at 1. rewrite Hq, Hitems. cbn. rewrite Hbuf. cbn.
    by rewrite (cstr_terminated text []).
Qed.

Lemma reachable_run_command s :
  reachable s -> CommandProcessorTask ∈ tasks (sys_world s) ->
  reachable (run_command s).
Proof.
  intros Hr Hin.
  destruct (command_iteration_runs s (reachable_inv s Hr) Hin) as [w' Hrun].
  unfold run_command. rewrite Hrun.
  eapply reachable_step; [done|]. by apply step_command.
Qed.

(** ** Bounded blocks *)




(** * Memory *)



(** X2: the bytes left in the receive buffer by earlier turns play no
    part: from the same world, two turns on the same event that differ
    only in the old content of the buffer end in the same world (same
    echo, same queued text, same log), and the string then held in the
    buffer is the text of the bytes just read. *)
Theorem stale_buffer_content_is_ignored event rx alloc_ok w q data1 data2 :
  command_queue w = Some q ->
  Z.of_nat (length data1) = BUF_SIZE ->
  Z.of_nat (length data2) = BUF_SIZE ->
  exists w',
    uart_event_iteration event rx alloc_ok data1 w
    = Ok (received (bytes_read event rx) data1, w') /\
    uart_event_iteration event rx alloc_ok data2 w
    = Ok (received (bytes_read event rx) data2, w') /\
    (bytes_read event rx <> [] ->
     cstr (received (bytes_read event rx) data1) = cstr (bytes_read event rx) /\
     cstr (received (bytes_read event rx) data2) = cstr (bytes_read event rx)).
Proof.
  intros Hq H1 H2.
  destruct (uart_turn_world event rx alloc_ok w q Hq) as (w' & Hrun & _).
  exists w'. split; [by apply Hrun|]. split; [by apply Hrun|].
  intros Hgot. rewrite !received_nonempty by done. by rewrite !cstr_cut.
Qed.

Lemma stale_buffer_content_is_ignored_witness :
  (command_queue (sample_world 0 [])
   = Some {| q_capacity := 5; q_items := [] |} /\
   Z.of_nat (length sample_data) = BUF_SIZE /\
   Z.of_nat (length (replicate 1024 x4f)) = BUF_SIZE) /\
  exists w',
    uart_event_iteration {| ev_type := UART_DATA; ev_size := 3 |}
      (RxAvail sample_line) true sample_data (sample_world 0 [])
    = Ok (received
            (bytes_read {| ev_type := UART_DATA; ev_size := 3 |}
               (RxAvail sample_line)) sample_data, w') /\
    uart_event_iteration {| ev_type := UART_DATA; ev_size := 3 |}
      (RxAvail sample_line) true (replicate 1024 x4f) (sample_world 0 [])
    = Ok (received
            (bytes_read {| ev_type := UART_DATA; ev_size := 3 |}
               (RxAvail sample_line)) (replicate 1024 x4f), w') /\
    (bytes_read {| ev_type := UART_DATA; ev_size := 3 |} (RxAvail sample_line)
     <> [] ->
     cstr (received
             (bytes_read {| ev_type := UART_DATA; ev_size := 3 |}
                (RxAvail sample_line)) sample_data)
     = cstr (bytes_read {| ev_type := UART_DATA; ev_size := 3 |}
               (RxAvail sample_line)) /\
     cstr (received
             (bytes_read {| ev_type := UART_DATA; ev_size := 3 |}
                (RxAvail sample_line)) (replicate 1024 x4f))
     = cstr (bytes_read {| ev_type := UART_DATA; ev_size := 3 |}
               (RxAvail sample_line))).
Proof.
  assert (Hq : command_queue (sample_world 0 [])
               = Some {| q_capacity := 5; q_items := [] |}) by reflexivity.
  assert (H1 : Z.of_nat (length sample_data) = BUF_SIZE) by reflexivity.
  assert (H2 : Z.of_nat (length (replicate 1024 x4f)) = BUF_SIZE)
    by reflexivity.
  split; [done|].
  exact (stale_buffer_content_is_ignored _ _ true _ _ _ _ Hq H1 H2).
Defined.

(** X3: when the copy of the text cannot be allocated, the bytes read
    have been echoed all the same; the turn ends with an error in the log
    and with the heap, the relay queue and the pin as they were. *)
Theorem copy_failure_keeps_echo w size bytes data :
  Z.of_nat (length data) = BUF_SIZE ->
  size <> 0 ->
  take (Z.to_nat (clamp_rx_size size)) bytes <> [] ->
  uart_event_iteration {| ev_type := UART_DATA; ev_size := size |}
    (RxAvail bytes) false data w
  = Ok (take (Z.to_nat (clamp_rx_size size)) bytes
          ++ NUL
          :: drop (S (length (take (Z.to_nat (clamp_rx_size size)) bytes)))
               data,
        add_effects
          [EUartRead (clamp_rx_size size)
             (Z.of_nat (length (take (Z.to_nat (clamp_rx_size size)) bytes)));
           ELog LOG_INFO "Received: %s"
             (StrArg (cstr (take (Z.to_nat (clamp_rx_size size)) bytes)));
           EUartWrite (take (Z.to_nat (clamp_rx_size size)) bytes);
           ELog LOG_ERROR "Failed to duplicate command string" NoArg] w).
Proof.
  intros Hdata Hsize Hgot.
  rewrite (uart_data_echo w size bytes false data Hsize Hgot Hdata).
  erewrite bind_ok; [|by apply forward_alloc_failed].
  by rewrite add_effects_add_effects.
Qed.

Lemma copy_failure_keeps_echo_witness :
  (Z.of_nat (length sample_data) = BUF_SIZE /\ 3 <> 0 /\
   take (Z.to_nat (clamp_rx_size 3)) sample_line <> []) /\
  uart_event_iteration {| ev_type := UART_DATA; ev_size := 3 |}
    (RxAvail sample_line) false sample_data (sys_world sample_full)
  = Ok (take (Z.to_nat (clamp_rx_size 3)) sample_line
          ++ NUL
          :: drop (S (length (take (Z.to_nat (clamp_rx_size 3)) sample_line)))
               sample_data,
        add_effects
          [EUartRead (clamp_rx_size 3)
             (Z.of_nat (length (take (Z.to_nat (clamp_rx_size 3)) sample_line)));
           ELog LOG_INFO "Received: %s"
             (StrArg (cstr (take (Z.to_nat (clamp_rx_size 3)) sample_line)));
           EUartWrite (take (Z.to_nat (clamp_rx_size 3)) sample_line);
           ELog LOG_ERROR "Failed to duplicate command string" NoArg]
          (sys_world sample_full)).
Proof.
  assert (H1 : Z.of_nat (length sample_data) = BUF_SIZE) by reflexivity.
  assert (H2 : 3 <> 0) by discriminate.
  assert (H3 : take (Z.to_nat (clamp_rx_size 3)) sample_line <> [])
    by discriminate.
  split; [done|].
  exact (copy_failure_keeps_echo (sys_world sample_full) 3 sample_line
           sample_data H1 H2 H3).
Defined.

(** * Runs *)

Lemma run_uart_events_view inputs s data :
  reachable s -> UartEventTask ∈ tasks (sys_world s) ->
  uart_task s = UartLooping data ->
  reachable (run_uart_events inputs s) /\
  tasks (sys_world (run_uart_events inputs s)) = tasks (sys_world s) /\
  (exists data', uart_task (run_uart_events inputs s) = UartLooping data') /\
  uart_tx (trace (sys_world (run_uart_events inputs s)))
  = uart_tx (trace (sys_world s))
    ++ concat ((fun i : uart_input => bytes_read i.1.1 i.1.2) <$> inputs) /\
  gpio_level (sys_world (run_uart_events inputs s))
  = gpio_level (sys_world s).
Proof.
  revert s data. induction inputs as [|[[event rx] alloc_ok] inputs IH];
    intros s data Hr Hin Hst.
  - cbn. rewrite app_nil_r. split; [done|]. split; [done|]. by split; [eexists|].
  - cbn [run_uart_events foldl fst snd fmap list_fmap concat].
    destruct (reachable_run_uart_event event rx alloc_ok s Hr Hin)
      as (Hr' & Ht' & _); [by eexists|].
    destruct (run_uart_event_view event rx alloc_ok s data
                (reachable_inv s Hr) Hin Hst) as (Hst' & Htx & Hg & _).
    destruct (IH _ _ Hr' ltac:(by rewrite Ht') Hst')
      as (Hr'' & Ht'' & Hd'' & Htx'' & Hg'').
    fold (run_uart_events inputs (run_uart_event event rx alloc_ok s)).
    split; [done|]. split; [congruence|]. split; [done|].
    split; [|congruence].
    by rewrite Htx'', Htx, (assoc_L (++)).
Qed.

(** X4: over any sequence of events handled by the receive/echo task, with
    any mix of read errors, failed allocations and a full relay queue, the
    bytes written to the serial line are the bytes read, in order and
    without loss or addition; the pin is not touched. *)
Theorem echo_output_is_input inputs s data :
  reachable s -> UartEventTask ∈ tasks (sys_world s) ->
  uart_task s = UartLooping data ->
  uart_tx (trace (sys_world (run_uart_events inputs s)))
  = uart_tx (trace (sys_world s))
    ++ concat ((fun i : uart_input => bytes_read i.1.1 i.1.2) <$> inputs) /\
  gpio_level (sys_world (run_uart_events inputs s))
  = gpio_level (sys_world s) /\
  reachable (run_uart_events inputs s).
Proof.
  intros Hr Hin Hst.
  by destruct (run_uart_events_view inputs s data Hr Hin Hst)
    as (? & _ & _ & ? & ?).
Qed.

Lemma echo_output_is_input_witness :
  let inputs : list uart_input :=
    [({| ev_type := UART_DATA; ev_size := 3 |}, RxAvail sample_line, false);
     ({| ev_type := UART_FIFO_OVF; ev_size := 0 |}, RxAvail sample_line, true);
     ({| ev_type := UART_DATA; ev_size := 2 |}, RxAvail sample_line, true);
     ({| ev_type := UART_DATA; ev_size := 7 |}, RxError, true)] in
  (reachable sample_full /\
   UartEventTask ∈ tasks (sys_world sample_full) /\
   uart_task sample_full = UartLooping (uart_data sample_full)) /\
  uart_tx (trace (sys_world (run_uart_events inputs sample_full)))
  = uart_tx (trace (sys_world sample_full))
    ++ concat ((fun i : uart_input => bytes_read i.1.1 i.1.2) <$> inputs) /\
  gpio_level (sys_world (run_uart_events inputs sample_full))
  = gpio_level (sys_world sample_full) /\
  reachable (run_uart_events inputs sample_full).
Proof.
  intros inputs.
  assert (Hin : UartEventTask ∈ tasks (sys_world sample_full))
    by (vm_compute; apply list_elem_of_here).
  assert (Hst : uart_task sample_full = UartLooping (uart_data sample_full))
    by (vm_compute; reflexivity).
  split; [by split; [exact sample_full_reachable|]|].
  exact (echo_output_is_input inputs sample_full _
           sample_full_reachable Hin Hst).
Defined.



Lemma run_commands_view n s :
  reachable s -> CommandProcessorTask ∈ tasks (sys_world s) ->
  reachable (Nat.iter n run_command s) /\
  tasks (sys_world (Nat.iter n run_command s)) = tasks (sys_world s) /\
  uart_task (Nat.iter n run_command s) = uart_task s /\
  uart_tx (trace (sys_world (Nat.iter n run_command s)))
  = uart_tx (trace (sys_world s)) /\
  pending (sys_world (Nat.iter n run_command s))
  = drop n (pending (sys_world s)) /\
  gpio_level (sys_world (Nat.iter n run_command s))
  = commands_level (take n (pending (sys_world s))) (gpio_level (sys_world s)).
Proof.
  revert s. induction n as [|n IH]; intros s Hr Hin.
  - cbn. by rewrite drop_0.
  - rewrite Nat.iter_succ_r.
    destruct (run_command_view s (reachable_inv s Hr) Hin)
      as (Hst & Ht & Htx & Hp & Hg).
    destruct (IH (run_command s) (reachable_run_command s Hr Hin)
                ltac:(by rewrite Ht))
      as (Hr' & Ht' & Hst' & Htx' & Hp' & Hg').
    split; [done|]. split; [congruence|]. split; [congruence|].
    split; [congruence|].
    rewrite Hp', Hg', Hp, Hg.
    destruct (pending (sys_world s)) as [|text texts]; cbn.
    + by rewrite drop_nil, take_nil.
    + done.
Qed.

(** X6: the command task takes the texts in the order they were queued: a
    turn handles the oldest waiting text, which decides the pin as its
    trimmed text says, and leaves the others waiting in their order; with
    nothing waiting the turn changes nothing.  The command task never
    writes to the serial line.  After [n] turns the first [n] waiting
    texts have been handled, in order. *)
Theorem command_turns_take_oldest_first n s :
  reachable s -> CommandProcessorTask ∈ tasks (sys_world s) ->
  pending (sys_world (run_command s)) = tail (pending (sys_world s)) /\
  gpio_level (sys_world (run_command s))
  = match pending (sys_world s) with
    | [] => gpio_level (sys_world s)
    | text :: _ => command_level (strip_eol text) (gpio_level (sys_world s))
    end /\
  (pending (sys_world s) = [] -> run_command s = s) /\
  pending (sys_world (Nat.iter n run_command s))
  = drop n (pending (sys_world s)) /\
  gpio_level (sys_world (Nat.iter n run_command s))
  = commands_level (take n (pending (sys_world s))) (gpio_level (sys_world s)) /\
  uart_tx (trace (sys_world (Nat.iter n run_command s)))
  = uart_tx (trace (sys_world s)) /\
  reachable (Nat.iter n run_command s).
Proof.
  intros Hr Hin. pose proof (reachable_inv s Hr) as Hinv.
  destruct (run_command_view s Hinv Hin) as (_ & _ & _ & Hp & Hg).
  destruct (run_commands_view n s Hr Hin) as (Hr' & _ & _ & Htx & Hp' & Hg').
  split; [done|]. split; [done|]. split; [|done].
  intros Hnil. destruct (task_has_queue _ s Hinv Hin) as [q Hq].
  assert (Hitems : q_items q = []).
  { apply length_zero_iff_nil. by rewrite <- (pending_length _ q Hq), Hnil. }
  unfold run_command. rewrite (command_iteration_idle _ q Hq Hitems).
  by destruct s.
Qed.

Lemma command_turns_take_oldest_first_witness :
  (reachable sample_full /\
   CommandProcessorTask ∈ tasks (sys_world sample_full)) /\
  pending (sys_world (run_command sample_full))
  = tail (pending (sys_world sample_full)) /\
  gpio_level (sys_world (run_command sample_full))
  = match pending (sys_world sample_full) with
    | [] => gpio_level (sys_world sample_full)
    | text :: _ =>
        command_level (strip_eol text) (gpio_level (sys_world sample_full))
    end /\
  (pending (sys_world sample_full) = [] -> run_command sample_full = sample_full) /\
  pending (sys_world (Nat.iter 3 run_command sample_full))
  = drop 3 (pending (sys_world sample_full)) /\
  gpio_level (sys_world (Nat.iter 3 run_command sample_full))
  = commands_level (take 3 (pending (sys_world sample_full)))
      (gpio_level (sys_world sample_full)) /\
  uart_tx (trace (sys_world (Nat.iter 3 run_command sample_full)))
  = uart_tx (trace (sys_world sample_full)) /\
  reachable (Nat.iter 3 run_command sample_full).
Proof.
  assert (Hin : CommandProcessorTask ∈ tasks (sys_world sample_full)).
  { vm_compute. apply list_elem_of_further, list_elem_of_here. }
  split; [by split; [exact sample_full_reachable|]|].
  exact (command_turns_take_oldest_first 3 sample_full
           sample_full_reachable Hin).
Defined.

Lemma line_input_read line :
  Z.of_nat (length line) <= BUF_SIZE - 1 ->
  bytes_read (line_input line).1.1 (line_input line).1.2 = line.
Proof.
  intros Hlen. unfold bytes_read, line_input. cbn [fst snd ev_type ev_size].
  case_decide as Hz.
  - destruct line; [done|]. cbn [length] in Hz. lia.
  - apply take_all_input. lia.
Qed.

Lemma lines_received lines s data :
  reachable s -> UartEventTask ∈ tasks (sys_world s) ->
  uart_task s = UartLooping data ->
  Forall (fun line => line <> [] /\ Z.of_nat (length line) <= BUF_SIZE - 1)
    lines ->
  (length (pending (sys_world s)) + length lines <= 5)%nat ->
  pending (sys_world (run_uart_events (line_input <$> lines) s))
  = pending (sys_world s) ++ (cstr <$> lines) /\
  concat ((fun i : uart_input => bytes_read i.1.1 i.1.2)
            <$> (line_input <$> lines)) = concat lines.
Proof.
  intros Hr Hin Hst Hlines. revert s data Hr Hin Hst.
  induction Hlines as [|line lines [Hne Hlen] _ IH]; intros s data Hr Hin Hst Hroom.
  - cbn. by rewrite app_nil_r.
  - cbn [fmap list_fmap run_uart_events foldl concat].
    fold (line_input <$> lines).
    fold (run_uart_events (line_input <$> lines)
            (run_uart_event (line_input line).1.1 (line_input line).1.2
               (line_input line).2 s)).
    destruct (reachable_run_uart_event (line_input line).1.1
                (line_input line).1.2 (line_input line).2 s Hr Hin)
      as (Hr' & Ht' & _); [by eexists|].
    destruct (run_uart_event_view (line_input line).1.1 (line_input line).1.2
                (line_input line).2 s data (reachable_inv s Hr) Hin Hst)
      as (Hst' & _ & _ & Hp).
    rewrite line_input_read in Hp, Hst' |- * by done.
    cbn [length] in Hroom.
    rewrite decide_True in Hp by (split; [done|split; [done|lia]]).
    destruct (IH _ _ Hr' ltac:(by rewrite Ht') Hst') as [Hp' Hc'].
    { rewrite Hp, length_app. cbn [length]. lia. }
    split; [|by rewrite Hc'].
    rewrite Hp', Hp. by rewrite <- (assoc_L (++)).
Qed.

(** X7: end to end.  When nothing is waiting and up to five non-empty
    lines of at most BUF_SIZE-1 bytes arrive, one per Data event, and the
    command task then makes as many turns, the pin ends at the level the
    lines' commands give when applied in the order of arrival (a line
    counts as the text before its first NUL, trimmed); every line has been
    echoed, the relay queue is empty again and so is the heap. *)
Theorem lines_take_effect_in_order lines s data :
  reachable s ->
  UartEventTask ∈ tasks (sys_world s) ->
  CommandProcessorTask ∈ tasks (sys_world s) ->
  uart_task s = UartLooping data ->
  pending (sys_world s) = [] ->
  (length lines <= 5)%nat ->
  Forall (fun line => line <> [] /\ Z.of_nat (length line) <= BUF_SIZE - 1)
    lines ->
  gpio_level
    (sys_world (Nat.iter (length lines) run_command
                  (run_uart_events (line_input <$> lines) s)))
  = commands_level (cstr <$> lines) (gpio_level (sys_world s)) /\
  uart_tx
    (trace (sys_world (Nat.iter (length lines) run_command
                         (run_uart_events (line_input <$> lines) s))))
  = uart_tx (trace (sys_world s)) ++ concat lines /\
  pending
    (sys_world (Nat.iter (length lines) run_command
                  (run_uart_events (line_input <$> lines) s))) = [] /\
  heap
    (sys_world (Nat.iter (length lines) run_command
                  (run_uart_events (line_input <$> lines) s))) = ∅.
Proof.
  intros Hr Hu Hc Hst Hidle Hn Hlines.
  destruct (run_uart_events_view (line_input <$> lines) s data Hr Hu Hst)
    as (Hr1 & Ht1 & _ & Htx1 & Hg1).
  destruct (lines_received lines s data Hr Hu Hst Hlines) as [Hp1 Hcat].
  { rewrite Hidle. cbn. lia. }
  rewrite Hidle in Hp1. cbn [app] in Hp1. rewrite Hcat in Htx1.
  set (s1 := run_uart_events (line_input <$> lines) s) in *.
  destruct (run_commands_view (length (cstr <$> lines)) s1 Hr1
              ltac:(by rewrite Ht1))
    as (Hr2 & Ht2 & _ & Htx2 & Hp2 & Hg2).
  rewrite Hp1, drop_all in Hp2. rewrite Hp1, firstn_all in Hg2.
  rewrite length_fmap in Hr2, Ht2, Htx2, Hp2, Hg2.
  split; [by rewrite Hg2, Hg1|]. split; [by rewrite Htx2|]. split; [done|].
  pose proof (reachable_inv _ Hr2) as Hinv2.
  destruct (task_has_queue CommandProcessorTask _ Hinv2) as [q Hq].
  { by rewrite Ht2, Ht1. }
  assert (Hitems : q_items q = []).
  { apply length_zero_iff_nil. by rewrite <- (pending_length _ q Hq), Hp2. }
  apply dom_empty_iff_L. rewrite (inv_owned _ Hinv2 q Hq), Hitems. done.
Qed.

Lemma started_reachable : reachable started.
Proof.
  assert (Hboot : reachable (boot all_ok 1)) by (by eapply reachable_boot).
  apply (reachable_run_uart_start sample_data (boot all_ok 1)); try done.
  cbn. apply list_elem_of_here.
Qed.

Lemma lines_take_effect_in_order_witness :
  (reachable started /\
   UartEventTask ∈ tasks (sys_world started) /\
   CommandProcessorTask ∈ tasks (sys_world started) /\
   uart_task started = UartLooping sample_data /\
   pending (sys_world started) = [] /\
   (length sample_lines <= 5)%nat /\
   Forall (fun line => line <> [] /\ Z.of_nat (length line) <= BUF_SIZE - 1)
     sample_lines) /\
  gpio_level
    (sys_world (Nat.iter (length sample_lines) run_command
                  (run_uart_events (line_input <$> sample_lines) started)))
  = commands_level (cstr <$> sample_lines) (gpio_level (sys_world started)) /\
  uart_tx
    (trace (sys_world (Nat.iter (length sample_lines) run_command
                         (run_uart_events (line_input <$> sample_lines)
                            started))))
  = uart_tx (trace (sys_world started)) ++ concat sample_lines /\
  pending
    (sys_world (Nat.iter (length sample_lines) run_command
                  (run_uart_events (line_input <$> sample_lines) started)))
  = [] /\
  heap
    (sys_world (Nat.iter (length sample_lines) run_command
                  (run_uart_events (line_input <$> sample_lines) started)))
  = ∅.
Proof.
  assert (Hu : UartEventTask ∈ tasks (sys_world started))
    by (cbn; apply list_elem_of_here).
  assert (Hc : CommandProcessorTask ∈ tasks (sys_world started))
    by (cbn; apply list_elem_of_further, list_elem_of_here).
  assert (Hst : uart_task started = UartLooping sample_data) by reflexivity.
  assert (Hidle : pending (sys_world started) = []) by reflexivity.
  assert (Hn : (length sample_lines <= 5)%nat) by (cbn; lia).
  assert (Hlines : Forall (fun line => line <> [] /\
                             Z.of_nat (length line) <= BUF_SIZE - 1)
                     sample_lines).
  { repeat constructor; try discriminate; by vm_compute. }
  split; [by repeat split; try exact started_reachable|].
  exact (lines_take_effect_in_order sample_lines started sample_data
           started_reachable Hu Hc Hst Hidle Hn Hlines).
Defined.

(** * Start-up and task creation *)

(** X8: [app_main] aborts exactly when one of the four checked calls (pin
    configuration, UART parameters, UART pins, driver installation)
    reports an error; it never faults.  Otherwise it returns with the pin
    driven to 0 and nothing allocated; with a relay queue of capacity 5,
    empty, and the tasks whose creation succeeded (the receive/echo task
    first) when the queue could be created, and with neither queue nor
    task when it could not. *)
Theorem startup_outcomes env level0 :
  (app_main env (power_on level0) = Aborted <->
   gpio_config_ok env && uart_param_config_ok env
   && uart_set_pin_ok env && uart_driver_install_ok env = false) /\
  app_main env (power_on level0) <> Fault /\
  app_main env (power_on level0) <> OutOfFuel /\
  (forall w, app_main env (power_on level0) = Ok (tt, w) ->
     gpio_level w = 0 /\ heap w = ∅ /\
     command_queue w
     = (if queue_create_ok env
        then Some {| q_capacity := 5; q_items := [] |} else None) /\
     tasks w
     = (if queue_create_ok env
        then (if uart_task_create_ok env then [UartEventTask] else [])
             ++ (if command_task_create_ok env
                 then [CommandProcessorTask] else [])
        else [])).
Proof.
  destruct env as [[] [] [] [] [] [] []]; cbn.
  all: split; [by split|]; split; [done|]; split; [done|].
  all: by intros w [= <-].
Qed.

Lemma tasks_never_change s0 s :
  pipeline_inv s0 -> rtc any_step s0 s ->
  pipeline_inv s /\ tasks (sys_world s) = tasks (sys_world s0).
Proof.
  intros Hinv Hrun.
  eapply (rtc_ind_r (fun s => pipeline_inv s /\
                              tasks (sys_world s) = tasks (sys_world s0)));
    [| |exact Hrun]; [done|].
  intros s1 s2 _ [t Hstep] [Hinv1 Ht].
  destruct (step_summary t s1 s2 Hinv1 Hstep) as (? & Ht' & _).
  split; [done|congruence].
Qed.

Lemma step_needs_task t s s' : step t s s' -> t ∈ tasks (sys_world s).
Proof. by destruct 1. Qed.

(** X9: the result of creating the command task is not checked.  When
    that creation fails, start-up completes all the same, and from then on
    the pin stays at 0 whatever is received: no entry is ever taken from
    the relay queue, and no turn of the command task is possible. *)
Theorem without_command_task_pin_stays_off env level0 s0 s :
  booted env level0 s0 ->
  queue_create_ok env = true ->
  command_task_create_ok env = false ->
  rtc any_step s0 s ->
  gpio_level (sys_world s) = 0 /\
  (CommandProcessorTask ∉ tasks (sys_world s)) /\
  Forall (fun e => is_queue_receive e = false) (trace (sys_world s)) /\
  (forall s', ~ step CommandProcessorTask s s').
Proof.
  intros (w & Hboot & ->) Hqc Hcc Hrun.
  pose proof (boot_inv env level0 w Hboot) as Hinv0.
  destruct (boot_level env level0 w Hboot) as [Hzero Hquiet].
  assert (Hno : CommandProcessorTask ∉ tasks w).
  { revert Hboot Hqc Hcc. clear.
    destruct env as [[] [] [] [] [] [] []]; cbn; intros [= <-] ? ?;
      try done; cbn.
    - by intros [=]%list_elem_of_singleton.
    - by intros ?%elem_of_nil. }
  assert (Hall : pipeline_inv s /\
                 tasks (sys_world s) = w.(tasks) /\
                 gpio_level (sys_world s) = 0 /\
                 Forall (fun e => is_queue_receive e = false)
                   (trace (sys_world s))).
  { eapply (rtc_ind_r (fun s => pipeline_inv s /\
                          tasks (sys_world s) = w.(tasks) /\
                          gpio_level (sys_world s) = 0 /\
                          Forall (fun e => is_queue_receive e = false)
                            (trace (sys_world s)))); [| |exact Hrun]; [done|].
    intros s1 s2 _ [t Hstep] (Hinv1 & Ht & Hg & Htr).
    pose proof (step_needs_task _ _ _ Hstep) as Hin. rewrite Ht in Hin.
    destruct (step_summary t s1 s2 Hinv1 Hstep)
      as (Hinv2 & Ht' & es & Hes & Hlev).
    assert (Hgs : gpio_level (sys_world s2) = gpio_level (sys_world s1)).
    { destruct Hlev as [?|[-> _]]; [done|]. by destruct Hno. }
    split; [done|]. split; [congruence|]. split; [congruence|].
    destruct t; [|by destruct Hno].
    rewrite Hes. apply Forall_app. split; [done|].
    revert Hes. clear -Hstep Hinv1.
    inversion Hstep as
      [? malloc_result ? ? ? ? ? Hst
      |? data event rx alloc_ok ? ? Hin1 Hst1 Hrun1|]; subst; cbn.
    - destruct malloc_result; cbn in Hst; injection Hst as <- <-; cbn.
      + intros Heq. rewrite <- (app_nil_r (trace _)) in Heq at 1.
        apply app_inv_head in Heq as <-. constructor.
      + rewrite <- (assoc_L (++)). intros Heq.
        apply app_inv_head in Heq as <-. by repeat constructor.
    - destruct (task_has_queue _ s1 Hinv1 Hin1) as [q Hq].
      destruct (uart_event_iteration_runs event rx alloc_ok data
                  (sys_world s1) q) as (d & w1 & Hrun' & _ & Hch);
        [by apply Hinv1|done|].
      rewrite Hrun1 in Hrun'. injection Hrun' as -> ->.
      destruct (echo_change_summary _ _ Hch) as (_ & _ & es' & Hes' & Hst').
      rewrite Hes'. intros Heq. apply app_inv_head in Heq as <-.
      eapply Forall_impl; [exact Hst'|]. by intros e [? _]. }
  destruct Hall as (_ & Ht & Hg & Htr).
  split; [done|]. split; [by rewrite Ht|]. split; [done|].
  intros s' Hstep. apply step_needs_task in Hstep. by rewrite Ht in Hstep.
Qed.

Lemma run_uart_start_step data s :
  UartEventTask ∈ tasks (sys_world s) -> uart_task s = UartNotStarted ->
  Z.of_nat (length data) = BUF_SIZE ->
  any_step s (run_uart_start data s).
Proof.
  intros Hin Hst Hdata. exists UartEventTask.
  eapply (step_uart_start s (Some data)); try done. by intros ? [= <-].
Qed.

Lemma run_uart_event_step event rx alloc_ok s data :
  pipeline_inv s -> UartEventTask ∈ tasks (sys_world s) ->
  uart_task s = UartLooping data ->
  any_step s (run_uart_event event rx alloc_ok s).
Proof.
  intros Hinv Hin Hst. destruct (task_has_queue _ s Hinv Hin) as [q Hq].
  destruct (uart_turn_world event rx alloc_ok (sys_world s) q Hq)
    as (w' & Hrun & _).
  exists UartEventTask. unfold run_uart_event.
  rewrite Hst, (Hrun data) by by apply Hinv.
  eapply step_uart_event; [done|done|]. by apply Hrun, Hinv.
Qed.

Lemma without_command_task_pin_stays_off_witness :
  (booted no_command_task 1 (boot no_command_task 1) /\
   queue_create_ok no_command_task = true /\
   command_task_create_ok no_command_task = false /\
   rtc any_step (boot no_command_task 1)
     (run_uart_event {| ev_type := UART_DATA; ev_size := 3 |}
        (RxAvail sample_line) true
        (run_uart_start sample_data (boot no_command_task 1)))) /\
  gpio_level
    (sys_world
       (run_uart_event {| ev_type := UART_DATA; ev_size := 3 |}
          (RxAvail sample_line) true
          (run_uart_start sample_data (boot no_command_task 1)))) = 0 /\
  (CommandProcessorTask
   ∉ tasks
       (sys_world
          (run_uart_event {| ev_type := UART_DATA; ev_size := 3 |}
             (RxAvail sample_line) true
             (run_uart_start sample_data (boot no_command_task 1))))) /\
  Forall (fun e => is_queue_receive e = false)
    (trace
       (sys_world
          (run_uart_event {| ev_type := UART_DATA; ev_size := 3 |}
             (RxAvail sample_line) true
             (run_uart_start sample_data (boot no_command_task 1))))) /\
  (forall s',
     ~ step CommandProcessorTask
         (run_uart_event {| ev_type := UART_DATA; ev_size := 3 |}
            (RxAvail sample_line) true
            (run_uart_start sample_data (boot no_command_task 1))) s').
Proof.
  assert (Hboot : booted no_command_task 1 (boot no_command_task 1))
    by (eapply boot_booted; reflexivity).
  assert (Hinv0 : pipeline_inv (boot no_command_task 1))
    by exact (boot_inv no_command_task 1 _ eq_refl).
  assert (Hstart : any_step (boot no_command_task 1)
                     (run_uart_start sample_data (boot no_command_task 1))).
  { apply run_uart_start_step; [apply list_elem_of_here|done|done]. }
  assert (Hinv1 : pipeline_inv
                    (run_uart_start sample_data (boot no_command_task 1))).
  { destruct Hstart as [t Hstep].
    by destruct (step_summary t _ _ Hinv0 Hstep). }
  assert (Hrun : rtc any_step (boot no_command_task 1)
                   (run_uart_event {| ev_type := UART_DATA; ev_size := 3 |}
                      (RxAvail sample_line) true
                      (run_uart_start sample_data (boot no_command_task 1)))).
  { eapply rtc_l; [exact Hstart|]. apply rtc_once.
    eapply (run_uart_event_step _ _ _ _ sample_data);
      [done|apply list_elem_of_here|done]. }
  split; [done|].
  exact (without_command_task_pin_stays_off no_command_task 1 _ _
           Hboot eq_refl eq_refl Hrun).
Defined.

Lemma boot_without_uart_task env level0 w :
  app_main env (power_on level0) = Ok (tt, w) ->
  uart_task_create_ok env = false ->
  (UartEventTask ∉ tasks w) /\
  (forall q, command_queue w = Some q -> q_items q = []).
Proof.
  destruct env as [[] [] [] [] [] [] []]; cbn; intros [= <-] ?; try done; cbn.
  all: split; [|by intros q [= <-]].
  - by intros [=]%list_elem_of_singleton.
  - by intros ?%elem_of_nil.
  - by intros ?%elem_of_nil.
  - by intros ?%elem_of_nil.
Qed.

(** X10: the result of creating the receive/echo task is not checked
    either.  When that creation fails, the system never leaves the state
    in which [app_main] returned: nothing is read or echoed, nothing is
    queued, and every turn of the command task finds the queue empty. *)
Theorem without_uart_task_nothing_happens env level0 s0 s :
  booted env level0 s0 ->
  uart_task_create_ok env = false ->
  rtc any_step s0 s ->
  s = s0.
Proof.
  intros (w & Hboot & ->) Huc Hrun.
  destruct (boot_without_uart_task env level0 w Hboot Huc) as [Hno Hempty].
  pose proof (boot_inv env level0 w Hboot) as Hinv0.
  eapply (rtc_ind_r (fun s => s = {| sys_world := w;
                                       uart_task := UartNotStarted |}));
    [| |exact Hrun]; [done|].
  intros s1 s2 _ [t Hstep] ->.
  inversion Hstep as [? ? ? ? Hin|? ? ? ? ? ? ? Hin|? w' Hin Hiter]; subst;
    cbn in *; try by destruct Hno.
  destruct (task_has_queue _ _ Hinv0 Hin) as [q Hq]. cbn in Hq.
  rewrite (command_iteration_idle w q Hq (Hempty q Hq)) in Hiter.
  by injection Hiter as <-.
Qed.

Lemma without_uart_task_nothing_happens_witness :
  (booted no_uart_task 1 (boot no_uart_task 1) /\
   uart_task_create_ok no_uart_task = false /\
   rtc any_step (boot no_uart_task 1) (run_command (boot no_uart_task 1))) /\
  run_command (boot no_uart_task 1) = boot no_uart_task 1.
Proof.
  assert (Hboot : booted no_uart_task 1 (boot no_uart_task 1))
    by (eapply boot_booted; reflexivity).
  assert (Hrun : rtc any_step (boot no_uart_task 1)
                   (run_command (boot no_uart_task 1))).
  { apply rtc_once. exists CommandProcessorTask.
    apply (step_command (boot no_uart_task 1));
      [apply list_elem_of_here|reflexivity]. }
  split; [done|].
  exact (without_uart_task_nothing_happens no_uart_task 1 _ _
           Hboot eq_refl Hrun).
Defined.

Lemma command_step_is_run_command s s' :
  step CommandProcessorTask s s' -> s' = run_command s.
Proof.
  inversion 1 as [| |? w' Hin Hrun]; subst. unfold run_command. by rewrite Hrun.
Qed.

(** X11: when [uart_event_task] gets no memory for its receive buffer it
    logs the error and deletes itself.  From then on it makes no further
    turn, and whatever else runs, no byte is written to the serial line
    any more. *)
Theorem buffer_allocation_failure_ends_echo s s' :
  reachable s ->
  UartEventTask ∈ tasks (sys_world s) ->
  uart_task s = UartNotStarted ->
  rtc any_step (run_uart_start_failed s) s' ->
  step UartEventTask s (run_uart_start_failed s) /\
  trace (sys_world (run_uart_start_failed s))
  = trace (sys_world s)
    ++ [ELog LOG_ERROR "Failed to allocate memory for UART buffer" NoArg;
        ETaskDelete UartEventTask] /\
  uart_task s' = UartDeleted /\
  uart_tx (trace (sys_world s')) = uart_tx (trace (sys_world s)) /\
  (forall s'', ~ step UartEventTask s' s'').
Proof.
  intros Hr Hin Hst Hrun.
  assert (Hstep : step UartEventTask s (run_uart_start_failed s)).
  { by apply (step_uart_start s None). }
  split; [done|]. split.
  { cbn. by rewrite <- (assoc_L (++)). }
  assert (Hall : reachable s' /\ uart_task s' = UartDeleted /\
                 uart_tx (trace (sys_world s')) = uart_tx (trace (sys_world s))).
  { eapply (rtc_ind_r (fun s' =>
              reachable s' /\ uart_task s' = UartDeleted /\
              uart_tx (trace (sys_world s'))
              = uart_tx (trace (sys_world s)))); [| |exact Hrun].
    - split; [by eapply reachable_step|]. split; [done|].
      cbn. rewrite !uart_tx_app. cbn. by rewrite !app_nil_r.
    - intros s1 s2 _ [t Hstep12] (Hr1 & Hd1 & Htx1).
      split; [by eapply reachable_step|].
      destruct t.
      + inversion Hstep12; subst; congruence.
      + pose proof (step_needs_task _ _ _ Hstep12) as Hin1.
        apply command_step_is_run_command in Hstep12 as ->.
        destruct (run_command_view s1 (reachable_inv s1 Hr1) Hin1)
          as (Hst2 & _ & Htx2 & _).
        split; congruence. }
  destruct Hall as (_ & Hd & Htx). split; [done|]. split; [done|].
  intros s'' Hstep'. inversion Hstep'; subst; congruence.
Qed.

Lemma buffer_allocation_failure_ends_echo_witness :
  (reachable (boot all_ok 1) /\
   UartEventTask ∈ tasks (sys_world (boot all_ok 1)) /\
   uart_task (boot all_ok 1) = UartNotStarted /\
   rtc any_step (run_uart_start_failed (boot all_ok 1))
     (run_command (run_uart_start_failed (boot all_ok 1)))) /\
  step UartEventTask (boot all_ok 1) (run_uart_start_failed (boot all_ok 1)) /\
  trace (sys_world (run_uart_start_failed (boot all_ok 1)))
  = trace (sys_world (boot all_ok 1))
    ++ [ELog LOG_ERROR "Failed to allocate memory for UART buffer" NoArg;
        ETaskDelete UartEventTask] /\
  uart_task (run_command (run_uart_start_failed (boot all_ok 1)))
  = UartDeleted /\
  uart_tx (trace (sys_world
                    (run_command (run_uart_start_failed (boot all_ok 1)))))
  = uart_tx (trace (sys_world (boot all_ok 1))) /\
  (forall s'',
     ~ step UartEventTask
         (run_command (run_uart_start_failed (boot all_ok 1))) s'').
Proof.
  assert (Hr : reachable (boot all_ok 1)) by (by eapply reachable_boot).
  assert (Hin : UartEventTask ∈ tasks (sys_world (boot all_ok 1)))
    by (cbn; apply list_elem_of_here).
  assert (Hst : uart_task (boot all_ok 1) = UartNotStarted) by reflexivity.
  assert (Hrun : rtc any_step (run_uart_start_failed (boot all_ok 1))
                   (run_command (run_uart_start_failed (boot all_ok 1)))).
  { apply rtc_once. exists CommandProcessorTask.
    apply (step_command (run_uart_start_failed (boot all_ok 1)));
      [cbn; apply list_elem_of_further, list_elem_of_here|reflexivity]. }
  split; [done|].
  exact (buffer_allocation_failure_ends_echo _ _ Hr Hin Hst Hrun).
Defined.

(** * The trim and the pin *)

(** X12: trimming is idempotent: an entry that went through the trim is
    left as it is by a second trim.  An entry whose text does not end in
    LF or CR is not changed at all by the trim. *)
Theorem trim_idempotent text rest :
  nul_free text ->
  (exists buf,
     trim (text ++ NUL :: rest) = Ok buf /\ trim buf = Ok buf /\
     cstr buf = strip_eol text) /\
  (no_eol_end text ->
   trim (text ++ NUL :: rest) = Ok (text ++ NUL :: rest)).
Proof.
  intros Hnf.
  assert (Hfix : forall kept rest',
            nul_free kept -> no_eol_end kept ->
            trim (kept ++ NUL :: rest') = Ok (kept ++ NUL :: rest')).
  { intros kept rest' Hk Hend. rewrite trim_terminated by done.
    pose proof (strip_eol_unique kept [] Hend (Forall_nil_2 _)) as Hs.
    rewrite app_nil_r in Hs. rewrite Hs, Nat.sub_diag. done. }
  split; [|by apply Hfix].
  eexists. split; [by apply trim_terminated|].
  rewrite trimmed_shape.
  split; [apply Hfix; [by apply strip_eol_nul_free|apply strip_eol_no_eol_end]|].
  by apply cstr_terminated, strip_eol_nul_free.
Qed.

Lemma trim_idempotent_witness :
  nul_free (String.list_byte_of_string "ON" ++ [CR; LF; LF]) /\
  (exists buf,
     trim ((String.list_byte_of_string "ON" ++ [CR; LF; LF]) ++ NUL :: [])
     = Ok buf /\
     trim buf = Ok buf /\
     cstr buf = strip_eol (String.list_byte_of_string "ON" ++ [CR; LF; LF])) /\
  (no_eol_end (String.list_byte_of_string "ON" ++ [CR; LF; LF]) ->
   trim ((String.list_byte_of_string "ON" ++ [CR; LF; LF]) ++ NUL :: [])
   = Ok ((String.list_byte_of_string "ON" ++ [CR; LF; LF]) ++ NUL :: [])).
Proof.
  assert (Hnf : nul_free (String.list_byte_of_string "ON" ++ [CR; LF; LF]))
    by (repeat constructor).
  split; [done|].
  exact (trim_idempotent _ [] Hnf).
Defined.

Lemma command_level_binary kept level :
  level = 0 \/ level = 1 ->
  command_level kept level = 0 \/ command_level kept level = 1.
Proof. unfold command_level. intros ?. repeat case_decide; auto. Qed.

(** X13: the pin is only ever driven to 0 or 1: in every state the system
    can reach the output state is one of the two levels. *)
Theorem output_state_is_binary s :
  reachable s ->
  gpio_level (sys_world s) = 0 \/ gpio_level (sys_world s) = 1.
Proof.
  intros (env & level0 & s0 & (w & Hboot & ->) & Hrun).
  assert (Hall : pipeline_inv s /\
                 (gpio_level (sys_world s) = 0 \/ gpio_level (sys_world s) = 1)).
  { eapply (rtc_ind_r (fun s =>
              pipeline_inv s /\
              (gpio_level (sys_world s) = 0 \/ gpio_level (sys_world s) = 1)));
      [| |exact Hrun].
    - split; [by eapply boot_inv|]. left. by eapply boot_level.
    - intros s1 s2 _ [t Hstep] [Hinv1 Hlev].
      destruct (step_summary t s1 s2 Hinv1 Hstep) as (Hinv2 & _ & es & _ & Hg).
      split; [done|]. destruct Hg as [Hsame|[Ht _]]; [by rewrite Hsame|].
      subst t. pose proof (step_needs_task _ _ _ Hstep) as Hin.
      apply command_step_is_run_command in Hstep as ->.
      destruct (run_command_view s1 Hinv1 Hin) as (_ & _ & _ & _ & ->).
      destruct (pending (sys_world s1)); [done|].
      by apply command_level_binary. }
  by destruct Hall.
Qed.

Lemma output_state_is_binary_witness :
  reachable (Nat.iter 2 run_command sample_full) /\
  (gpio_level (sys_world (Nat.iter 2 run_command sample_full)) = 0 \/
   gpio_level (sys_world (Nat.iter 2 run_command sample_full)) = 1).
Proof.
  assert (Hr : reachable (Nat.iter 2 run_command sample_full)).
  { apply run_commands_view; [exact sample_full_reachable|].
    vm_compute. apply list_elem_of_further, list_elem_of_here. }
  split; [done|].
  exact (output_state_is_binary _ Hr).
Defined.

(** Four lines in a row, then four turns of the command task: the last
    command wins, everything was echoed, nothing is left allocated. *)
Example scenario_batch :
  let s := Nat.iter 4 run_command
             (run_uart_events (line_input <$> sample_lines) started) in
  pending (sys_world (run_uart_events (line_input <$> sample_lines) started))
  = [String.list_byte_of_string "ON" ++ [LF];
     String.list_byte_of_string "hello" ++ [CR; LF];
     String.list_byte_of_string "OFF" ++ [CR; LF];
     String.list_byte_of_string "ON" ++ [CR; LF]] /\
  gpio_level (sys_world s) = 1 /\
  uart_tx (calls_since_start s) = concat sample_lines /\
  heap (sys_world s) = ∅.
Proof. vm_compute. by repeat split. Qed.

(** Without memory for the buffer the task is gone after its first step. *)
Example scenario_no_buffer :
  uart_task (run_uart_start_failed (boot all_ok 1)) = UartDeleted /\
  run_uart_event {| ev_type := UART_DATA; ev_size := 3 |}
    (RxAvail sample_line) true (run_uart_start_failed (boot all_ok 1))
  = run_uart_start_failed (boot all_ok 1).
Proof. by split. Qed.

(** A failed driver installation aborts start-up. *)
Example scenario_no_driver : app_main no_driver (power_on 1) = Aborted.
Proof. reflexivity. Qed.
